(** * Terraform (AWS) -> standardized JSON: a verified model of
      [scripts/terraform_aws_transformer.py]

    The development embeds the normalisation and classification pipeline of
    the transformer: the value normaliser, the metadata extractor, the record
    builder, the document collector and the service organiser.

    Conventions of the embedding.
    - A parsed document is a tree of Python values: [None], booleans,
      integers, floats, strings, lists and dicts.  A float stands as its
      [repr] (the parser reads no NaN).  A dict is an association list in
      insertion order; Python guarantees that its keys are distinct, which
      is the predicate [wf_value] below.
    - A [string] is a sequence of code points; each [ascii] stands for one
      code point below 256.  Comparison of strings is Python's: lexicographic
      on code points.
    - [sorted] is modelled by a stable insertion sort: a stable sort is a
      function of its input and of the order, so every stable sort computes
      the same list. *)

From Stdlib Require Import List String Ascii Bool ZArith Lia.
From Stdlib Require Import Permutation Sorted.
From Stdlib Require Import DecimalString.
Import ListNotations.

Local Open Scope string_scope.
Local Open Scope list_scope.

(** ** Python values *)

#[warnings="-register-all"]
Inductive value : Type :=
| VNull : value
| VBool : bool -> value
| VNum : Z -> value
| VFloat : string -> value
| VStr : string -> value
| VList : list value -> value
| VDict : list (string * value) -> value.

Definition dict : Type := list (string * value).

Definition is_dict (v : value) : bool :=
  match v with VDict _ => true | _ => false end.

Definition is_list (v : value) : bool :=
  match v with VList _ => true | _ => false end.

(** Induction over values that reaches the elements of lists and the values
    of dicts. *)
Section ValueInd.
Variable P : value -> Prop.
Hypothesis HNull : P VNull.
Hypothesis HBool : forall b, P (VBool b).
Hypothesis HNum : forall z, P (VNum z).
Hypothesis HFloat : forall r, P (VFloat r).
Hypothesis HStr : forall s, P (VStr s).
Hypothesis HList : forall l, Forall P l -> P (VList l).
Hypothesis HDict : forall kvs, Forall (fun kv => P (snd kv)) kvs -> P (VDict kvs).

Fixpoint value_ind' (v : value) : P v :=
  match v with
  | VNull => HNull
  | VBool b => HBool b
  | VNum z => HNum z
  | VFloat r => HFloat r
  | VStr s => HStr s
  | VList l =>
      HList l ((fix go (l : list value) : Forall P l :=
                  match l with
                  | [] => Forall_nil _
                  | x :: t => Forall_cons _ (value_ind' x) (go t)
                  end) l)
  | VDict kvs =>
      HDict kvs ((fix go (l : list (string * value))
                    : Forall (fun kv => P (snd kv)) l :=
                    match l with
                    | [] => Forall_nil _
                    | kv :: t => Forall_cons _ (value_ind' (snd kv)) (go t)
                    end) kvs)
  end.
End ValueInd.

(** ** Dict operations (insertion-ordered, as Python's dict and OrderedDict) *)

Definition keys (d : dict) : list string := map fst d.

(** [d.get(k)] *)
Fixpoint dict_get (k : string) (d : dict) : option value :=
  match d with
  | [] => None
  | (k', v) :: t => if String.eqb k k' then Some v else dict_get k t
  end.

(** [del d[k]] *)
Definition dict_remove (k : string) (d : dict) : dict :=
  filter (fun kv => negb (String.eqb k (fst kv))) d.

(** [d.pop(k, None)]: the value bound to [k] ([None] when there is none) and
    the dict without [k]. *)
Definition dict_pop (k : string) (d : dict) : value * dict :=
  (match dict_get k d with Some v => v | None => VNull end, dict_remove k d).

(** [d[k] = v]: an existing key keeps its position, a new key goes last. *)
Fixpoint dict_set (k : string) (v : value) (d : dict) : dict :=
  match d with
  | [] => [(k, v)]
  | (k', v') :: t =>
      if String.eqb k k' then (k, v) :: t else (k', v') :: dict_set k v t
  end.

(** [OrderedDict(items)]: the items are assigned in order. *)
Definition OrderedDict (items : list (string * value)) : dict :=
  fold_left (fun out kv => dict_set (fst kv) (snd kv) out) items [].

(** The strings of [l] are distinct. *)
Fixpoint NoDupb (l : list string) : bool :=
  match l with
  | [] => true
  | x :: t => negb (existsb (String.eqb x) t) && NoDupb t
  end.

(** A value that Python can hold: no mapping of it has a repeated key. *)
Fixpoint wf_value (v : value) : bool :=
  match v with
  | VList l => forallb wf_value l
  | VDict kvs =>
      NoDupb (map fst kvs) && forallb (fun kv => wf_value (snd kv)) kvs
  | _ => true
  end.

(** ** Stable sort by a key ([sorted(xs, key=f)]) *)

Section Sorted.
Context {A K : Type}.
Variable ltb : K -> K -> bool.
Variable key : A -> K.

(** [x] goes before the first element that is not smaller than it, so equal
    keys keep their input order. *)
Fixpoint insert_sorted (x : A) (l : list A) : list A :=
  match l with
  | [] => [x]
  | y :: t =>
      if ltb (key y) (key x) then y :: insert_sorted x t else x :: y :: t
  end.

Definition sorted (l : list A) : list A :=
  fold_right insert_sorted [] l.

(** [x] may stand before [y]: the key of [y] is not below the key of [x]. *)
Definition key_le (x y : A) : Prop := ltb (key y) (key x) = false.
End Sorted.

(** ** Whitespace and the pure-interpolation pattern *)

(** [str.isspace] and the class [\s] of a [str] pattern, below code point
    256: TAB..CR, FS..US, space, NEL and NBSP. *)
Definition is_space (c : ascii) : bool :=
  let n := nat_of_ascii c in
  (Nat.leb 9 n && Nat.leb n 13) || (Nat.leb 28 n && Nat.leb n 32)
  || Nat.eqb n 133 || Nat.eqb n 160.

Fixpoint lstrip (s : string) : string :=
  match s with
  | EmptyString => EmptyString
  | String c t => if is_space c then lstrip t else s
  end.

Fixpoint rstrip (s : string) : string :=
  match s with
  | EmptyString => EmptyString
  | String c t =>
      match rstrip t with
      | EmptyString => if is_space c then EmptyString else String c EmptyString
      | r => String c r
      end
  end.

(** [s.strip()] *)
Definition strip (s : string) : string := rstrip (lstrip s).

Fixpoint all_space (s : string) : bool :=
  match s with
  | EmptyString => true
  | String c t => is_space c && all_space t
  end.

Definition is_rbrace (c : ascii) : bool := Ascii.eqb c "}"%char.

(** The greedy class [^}] starred: the longest prefix without a closing
    brace, and what follows it. *)
Fixpoint take_non_rbrace (s : string) : string * string :=
  match s with
  | EmptyString => (EmptyString, EmptyString)
  | String c t =>
      if is_rbrace c then (EmptyString, s)
      else let (a, b) := take_non_rbrace t in (String c a, b)
  end.

(** [EXPR_RE.match(s)], where [EXPR_RE] is the pattern (written here with
    its parts spaced out)
      ^ \s* \$ { \s* (?P<inner> [^}]* ) \s* } \s* $
    and the result is the group [inner] of the match.  Every quantifier is
    greedy: the leading [\s*] runs to the dollar sign, the one after the
    opening brace eats the blanks before [inner], [inner] runs to the first
    closing brace (so the [\s*] after it is empty), and what follows the
    brace must be blank up to the end of the string (the final [$] also
    matches before a last newline, which is a blank).  Backtracking finds no
    other match: a shorter [inner] leaves the same closing brace to match.
    [EXPR_RE_match_sound], [EXPR_RE_match_complete] and
    [EXPR_RE_group_trimmed] relate the matcher to the strings of the
    pattern. *)
Definition EXPR_RE_match (s : string) : option string :=
  match lstrip s with
  | String c1 (String c2 r) =>
      if Ascii.eqb c1 "$" && Ascii.eqb c2 "{" then
        let (inner, rest) := take_non_rbrace (lstrip r) in
        match rest with
        | String c3 tl =>
            if is_rbrace c3 && all_space tl then Some inner else None
        | EmptyString => None
        end
      else None
  | _ => None
  end.

(** [OrderedDict([("$expr", inner)])] *)
Definition expr_tag (inner : string) : value :=
  VDict (OrderedDict [("$expr", VStr inner)]).

(** ** Value normaliser *)

Definition dropped_key (k : string) : bool :=
  String.eqb k "provisioner" || String.eqb k "connection".

Definition kv_key (kv : string * value) : string := fst kv.

(** [sorted(v.items(), key=lambda kv: kv[0])] *)
Definition sort_items (d : dict) : dict := sorted String.ltb kv_key d.

(** [normalize_value(v)].  For a dict the recursion is structural when the
    values are normalised before the items are sorted; the keys do not
    change, so this is the loop of the source, which sorts first
    ([normalize_value_dict] below).  Scalars are returned as they are. *)
Fixpoint normalize_value (v : value) : value :=
  match v with
  | VDict kvs =>
      VDict (OrderedDict
               (filter (fun kv => negb (dropped_key (fst kv)))
                  (sort_items
                     (map (fun kv => (fst kv, normalize_value (snd kv))) kvs))))
  | VList l => VList (map normalize_value l)
  | VStr s =>
      match EXPR_RE_match s with
      | Some inner => expr_tag (strip inner)
      | None => VStr s
      end
  | _ => v
  end.

(** ** [str] and [repr] of a parsed value *)

Definition squote : ascii := ascii_of_nat 39.
Definition dquote : ascii := ascii_of_nat 34.
Definition backslash : ascii := ascii_of_nat 92.

Definition hex_digit (n : nat) : ascii :=
  if Nat.ltb n 10 then ascii_of_nat (48 + n) else ascii_of_nat (87 + n).

(** The escape [\xHH], with lower-case digits. *)
Definition hex_escape (c : ascii) : string :=
  let n := nat_of_ascii c in
  String backslash
    (String "x" (String (hex_digit (n / 16)) (String (hex_digit (n mod 16)) ""))).

(** Printable code points above DEL, below 256: all but the C1 controls,
    NBSP and the soft hyphen. *)
Definition is_printable_high (c : ascii) : bool :=
  let n := nat_of_ascii c in Nat.leb 161 n && negb (Nat.eqb n 173).

Fixpoint contains_char (c : ascii) (s : string) : bool :=
  match s with
  | EmptyString => false
  | String a t => Ascii.eqb a c || contains_char c t
  end.

Definition repr_char (quote c : ascii) : string :=
  let n := nat_of_ascii c in
  if Ascii.eqb c quote || Ascii.eqb c backslash then String backslash (String c "")
  else if Nat.eqb n 9 then String backslash "t"
  else if Nat.eqb n 10 then String backslash "n"
  else if Nat.eqb n 13 then String backslash "r"
  else if Nat.ltb n 32 || Nat.eqb n 127 then hex_escape c
  else if Nat.ltb n 127 then String c ""
  else if is_printable_high c then String c ""
  else hex_escape c.

Fixpoint repr_chars (quote : ascii) (s : string) : string :=
  match s with
  | EmptyString => EmptyString
  | String c t => (repr_char quote c ++ repr_chars quote t)%string
  end.

(** [repr(s)] of a string: single quotes, unless the string has a single
    quote and no double quote. *)
Definition repr_str (s : string) : string :=
  let quote :=
    if contains_char squote s && negb (contains_char dquote s)
    then dquote else squote in
  String quote (repr_chars quote s ++ String quote "")%string.

Definition repr_int (z : Z) : string := NilZero.string_of_int (Z.to_int z).

Fixpoint py_repr (v : value) : string :=
  match v with
  | VNull => "None"
  | VBool true => "True"
  | VBool false => "False"
  | VNum z => repr_int z
  | VFloat r => r
  | VStr s => repr_str s
  | VList l => ("[" ++ String.concat ", " (map py_repr l) ++ "]")%string
  | VDict kvs =>
      ("{" ++ String.concat ", "
                (map (fun kv => repr_str (fst kv) ++ ": " ++ py_repr (snd kv)) kvs)
           ++ "}")%string
  end.

(** [str(v)] *)
Definition py_str (v : value) : string :=
  match v with
  | VStr s => s
  | _ => py_repr v
  end.

(** ** Metadata extractor *)

Definition _to_expr_or_val (x : value) : value :=
  match x with
  | VStr s =>
      match EXPR_RE_match s with
      | Some inner => expr_tag (strip inner)
      | None => x
      end
  | _ => x
  end.

Definition is_none (v : value) : bool :=
  match v with VNull => true | _ => false end.

(** The extracted metadata: [count], [for_each], [depends_on] and
    [provider_alias].  Python's [None] is [VNull] for the first two and
    [None] for the alias. *)
Record meta : Type := Meta {
  m_count : value;
  m_for_each : value;
  m_depends : list string;
  m_provider_alias : option string
}.

(** [extract_meta(attrs)] pops four keys from [attrs]: the result carries the
    dict that [attrs] has become. *)
Definition extract_meta (attrs : dict) : meta * dict :=
  let (count, attrs) := dict_pop "count" attrs in
  let (for_each, attrs) := dict_pop "for_each" attrs in
  let (depends_on, attrs) := dict_pop "depends_on" attrs in
  let (provider, attrs) := dict_pop "provider" attrs in
  let count := if is_none count then VNull else _to_expr_or_val count in
  let for_each := if is_none for_each then VNull else _to_expr_or_val for_each in
  let depends :=
    match depends_on with
    | VNull => []
    | VList l => map py_str l
    | _ => [py_str depends_on]
    end in
  let provider_alias :=
    match provider with
    | VStr s => Some s
    | _ => None
    end in
  (Meta count for_each depends provider_alias, attrs).

(** ** Service classification *)

(** The logical services, which the source names by the strings of
    [service_name]. *)
Inductive service : Type := Ec2 | Iam | Rds | S3 | Vpc.

Definition service_name (s : service) : string :=
  match s with
  | Ec2 => "ec2" | Iam => "iam" | Rds => "rds" | S3 => "s3" | Vpc => "vpc"
  end.

Definition service_eqb (a b : service) : bool :=
  match a, b with
  | Ec2, Ec2 | Iam, Iam | Rds, Rds | S3, S3 | Vpc, Vpc => true
  | _, _ => false
  end.

Definition IAM_PREFIX : string := "aws_iam_".
Definition S3_PREFIX : string := "aws_s3_".
Definition RDS_PREFIXES : list string := ["aws_rds_"; "aws_db_"].

Definition VPC_TYPES : list string :=
  [ "aws_vpc"; "aws_vpc_dhcp_options"; "aws_vpc_dhcp_options_association";
    "aws_subnet"; "aws_route_table"; "aws_route";
    "aws_main_route_table_association"; "aws_route_table_association";
    "aws_network_acl"; "aws_network_acl_rule"; "aws_internet_gateway";
    "aws_nat_gateway"; "aws_eip_association"; "aws_vpc_endpoint";
    "aws_vpc_endpoint_service"; "aws_vpc_peering_connection";
    "aws_vpc_peering_connection_accepter"; "aws_flow_log";
    "aws_network_interface"; "aws_network_interface_sg_attachment" ].

Definition EC2_TYPES : list string :=
  [ "aws_instance"; "aws_ami"; "aws_ami_copy"; "aws_ami_from_instance";
    "aws_ebs_volume"; "aws_ebs_snapshot"; "aws_volume_attachment";
    "aws_snapshot_create_volume_permission"; "aws_key_pair";
    "aws_launch_template"; "aws_placement_group"; "aws_spot_fleet_request";
    "aws_eip" ].

Definition SERVICES_KEYS : list service := [Ec2; Iam; Rds; S3; Vpc].

(** [t.startswith(p)] *)
Definition startswith (t p : string) : bool := String.prefix p t.

(** [t in types] *)
Definition mem (t : string) (types : list string) : bool :=
  existsb (String.eqb t) types.

Definition service_for_type (t : string) : option service :=
  if startswith t IAM_PREFIX then Some Iam
  else if startswith t S3_PREFIX then Some S3
  else if existsb (startswith t) RDS_PREFIXES then Some Rds
  else if mem t VPC_TYPES then Some Vpc
  else if mem t EC2_TYPES then Some Ec2
  else None.

(** ** Record builder *)

(** A normalised record, with the fields of the ordered dict that
    [make_record] assembles. *)
Record record : Type := MkRecord {
  r_address : string;
  r_type : string;
  r_name : string;
  r_service : service;
  r_mode : string;
  r_provider_alias : option string;
  r_depends_on : list string;
  r_count : value;
  r_for_each : value;
  r_attributes : dict
}.

Inductive reason : Type :=
| non_aws_provider
| unsupported_service
| malformed_block
| non_aws_provider_alias.

Definition reason_name (e : reason) : string :=
  match e with
  | non_aws_provider => "non_aws_provider"
  | unsupported_service => "unsupported_service"
  | malformed_block => "malformed_block"
  | non_aws_provider_alias => "non_aws_provider_alias"
  end.

(** The pair [(rec, err)] that [make_record] returns has exactly one component
    that is not [None]. *)
Inductive result : Type :=
| Ok (rec : record)
| Err (e : reason).

(** Truth value of a string: the empty string is false. *)
Definition truthy (s : string) : bool := negb (String.eqb s "").

(** [sorted(pairs)] on pairs of a key and a value: the keys of a dict are
    distinct, so the order of the pairs is the order of their keys. *)
Definition sort_pairs (items : list (string * value)) : list (string * value) :=
  sorted String.ltb kv_key items.

(** [make_record(kind, rtype, name, body)].  [attrs] is a copy of the body,
    which [extract_meta] then empties of the four metadata keys; the
    attributes are the remaining pairs, each value normalised, sorted and
    stored in an ordered dict.  The alias is tested for truth twice: in the
    check and when the record is filled. *)
Definition make_record (kind rtype name : string) (body : value) : result :=
  if negb (startswith rtype "aws_") then Err non_aws_provider
  else
    match service_for_type rtype with
    | None => Err unsupported_service
    | Some service =>
        match body with
        | VDict body =>
            let attrs := body in
            let (m, attrs) := extract_meta attrs in
            let provider_alias := m_provider_alias m in
            if match provider_alias with
               | Some a => truthy a && negb (startswith a "aws")
               | None => false
               end
            then Err non_aws_provider_alias
            else
              let norm_attrs :=
                OrderedDict
                  (sort_pairs
                     (map (fun kv => (fst kv, normalize_value (snd kv))) attrs)) in
              let address := (rtype ++ "." ++ name)%string in
              Ok {| r_address := address;
                    r_type := rtype;
                    r_name := name;
                    r_service := service;
                    r_mode := if String.eqb kind "data" then "data" else "resource";
                    r_provider_alias :=
                      match provider_alias with
                      | Some a => if truthy a then Some a else None
                      | None => None
                      end;
                    r_depends_on := m_depends m;
                    r_count := m_count m;
                    r_for_each := m_for_each m;
                    r_attributes := norm_attrs |}
        | _ => Err malformed_block
        end
    end.

(** ** Document collector *)

(** The generators, as the sequences of pairs they yield. *)
Definition _iter_resource_entries (section : option value)
  : list (string * value) :=
  match section with
  | Some (VList entries) =>
      flat_map (fun entry => match entry with VDict d => d | _ => [] end) entries
  | Some (VDict d) => d
  | _ => []
  end.

Definition _iter_name_bodies (blocks : value) : list (string * value) :=
  match blocks with
  | VList bs =>
      flat_map (fun block => match block with VDict d => d | _ => [] end) bs
  | VDict d => d
  | _ => []
  end.

(** A diagnostic: for a declaration [{kind, type, name, reason}], for a file
    [{kind: "file", path, reason: "parse_error", message}]. *)
Inductive ignored_item : Type :=
| IgnoredDecl (kind type name : string) (why : reason)
| IgnoredFile (path message : string).

(** The lists that the collector appends to. *)
Definition collected : Type := (list record * list ignored_item)%type.

(** One declaration of kind [kind]: the body of the inner loop.  The name
    is a key of a dict, a string, so [str(name)] is the name. *)
Definition collect_decl (kind : string) (include_ignored : bool)
    (rtype name : string) (body : value) (st : collected) : collected :=
  match make_record kind rtype name body with
  | Ok rec => (fst st ++ [rec], snd st)
  | Err err =>
      if include_ignored
      then (fst st, snd st ++ [IgnoredDecl kind rtype name err])
      else st
  end.

(** One loop of [collect_from_doc] over a section. *)
Definition collect_section (kind : string) (include_ignored : bool)
    (section : option value) (st : collected) : collected :=
  fold_left
    (fun st entry =>
       let (rtype, blocks) := entry : string * value in
       if is_none blocks then st
       else
         fold_left
           (fun st nb =>
              let (name, body) := nb : string * value in
              collect_decl kind include_ignored rtype name body st)
           (_iter_name_bodies blocks) st)
    (_iter_resource_entries section) st.

Definition collect_from_doc (doc : dict) (include_ignored : bool)
  : list record * list record * list ignored_item :=
  let (resources, ignored) :=
    collect_section "resource" include_ignored (dict_get "resource" doc) ([], []) in
  let (datas, ignored) :=
    collect_section "data" include_ignored (dict_get "data" doc) ([], ignored) in
  (resources, datas, ignored).

(** ** Service organiser *)

(** Python's [<] on tuples of strings of one length. *)
Fixpoint tuple_ltb (a b : list string) : bool :=
  match a, b with
  | [], [] => false
  | [], _ :: _ => true
  | _ :: _, [] => false
  | x :: a', y :: b' => if String.eqb x y then tuple_ltb a' b' else String.ltb x y
  end.

Definition record_key (r : record) : list string :=
  [r_type r; r_name r; r_address r].

Definition sort_records (recs : list record) : list record :=
  sorted tuple_ltb record_key recs.

Record bucket : Type := Bucket {
  resources : list record;
  data_sources : list record
}.

(** [services[k] = f(services[k])] *)
Fixpoint update_bucket (k : service) (f : bucket -> bucket)
    (services : list (service * bucket)) : list (service * bucket) :=
  match services with
  | [] => []
  | (k', b) :: t =>
      if service_eqb k k' then (k', f b) :: t
      else (k', b) :: update_bucket k f t
  end.

Definition organize_by_service (rs datas : list record)
  : list (service * bucket) :=
  let services := map (fun k => (k, Bucket [] [])) SERVICES_KEYS in
  let services :=
    fold_left
      (fun services r =>
         update_bucket (r_service r)
           (fun b => Bucket (resources b ++ [r]) (data_sources b)) services)
      rs services in
  let services :=
    fold_left
      (fun services d =>
         update_bucket (r_service d)
           (fun b => Bucket (resources b) (data_sources b ++ [d])) services)
      datas services in
  fold_left
    (fun services k =>
       update_bucket k
         (fun b => Bucket (resources b) (sort_records (data_sources b)))
         (update_bucket k
            (fun b => Bucket (sort_records (resources b)) (data_sources b))
            services))
    SERVICES_KEYS services.

(** [services[k]]; every key of [SERVICES_KEYS] is bound. *)
Fixpoint get_bucket (k : service) (services : list (service * bucket)) : bucket :=
  match services with
  | [] => Bucket [] []
  | (k', b) :: t => if service_eqb k k' then b else get_bucket k t
  end.

(** ** Aggregation into the output envelope *)

Record envelope : Type := Envelope {
  version : string;
  provider : string;
  services : list (string * bucket);
  ignored : option (list ignored_item)
}.

(** The sort key of a diagnostic: [(kind, type, name, path, reason)], a
    missing field counting as the empty string. *)
Definition ignored_key (x : ignored_item) : list string :=
  match x with
  | IgnoredDecl kind type name why => [kind; type; name; ""; reason_name why]
  | IgnoredFile path _ => ["file"; ""; ""; path; "parse_error"]
  end.

Definition sort_ignored (l : list ignored_item) : list ignored_item :=
  sorted tuple_ltb ignored_key l.

(** What the parser answers: a document, or the message of the exception it
    raises. *)
Inductive parse_result : Type :=
| Parsed (doc : dict)
| ParseError (message : string).

(** The three lists that a transformation accumulates over its units. *)
Definition accumulated : Type :=
  (list record * list record * list ignored_item)%type.

Definition add_unit (include_ignored : bool) (path : string)
    (parsed : parse_result) (st : accumulated) : accumulated :=
  let '(all_resources, all_datas, all_ignored) := st in
  match parsed with
  | ParseError message =>
      if include_ignored
      then (all_resources, all_datas, all_ignored ++ [IgnoredFile path message])
      else st
  | Parsed doc =>
      let '(res, datas, ign) := collect_from_doc doc include_ignored in
      (all_resources ++ res, all_datas ++ datas, all_ignored ++ ign)
  end.

Definition make_envelope (include_ignored : bool) (st : accumulated) : envelope :=
  let '(all_resources, all_datas, all_ignored) := st in
  let services := organize_by_service all_resources all_datas in
  {| version := "1.0";
     provider := "aws";
     services := map (fun k => (service_name k, get_bucket k services)) SERVICES_KEYS;
     ignored := if include_ignored then Some (sort_ignored all_ignored) else None |}.

(** A file of the request: [path] and [content] may be missing. *)
Record tf_file : Type := TfFile {
  f_path : option string;
  f_content : option string
}.

Record request : Type := Request {
  req_files : list tf_file;
  req_include_ignored : bool
}.

(** [s.endswith(suffix)] *)
Definition endswith (s suffix : string) : bool :=
  Nat.leb (String.length suffix) (String.length s)
  && String.eqb
       (substring (String.length s - String.length suffix) (String.length suffix) s)
       suffix.

Section Transform.
(** The collaborators: the HCL parser and the file system. *)
Variable parse_tf_string : string -> parse_result.
Variable parse_tf_file : string -> parse_result.
Variable isfile isdir : string -> bool.
(** [os.walk(p)]: the directories under [p], each with its file names. *)
Variable walk : string -> list (string * list string).
Variable path_join : string -> string -> string.

(** [transform_from_prompt(request_obj)]: a file without a path (or with an
    empty one) is reported as "<memory>", a file without content is parsed
    as the empty text, and a file that the parser rejects adds a
    diagnostic when diagnostics are requested. *)
Definition transform_from_prompt (request_obj : request) : envelope :=
  let files := req_files request_obj in
  let include_ignored := req_include_ignored request_obj in
  make_envelope include_ignored
    (fold_left
       (fun st f =>
          let path :=
            match f_path f with
            | Some p => if truthy p then p else "<memory>"
            | None => "<memory>"
            end in
          let content :=
            match f_content f with Some c => c | None => "" end in
          add_unit include_ignored path (parse_tf_string content) st)
       files ([], [], [])).

(** [gather_tf_files(input_path)]: the path itself when it is a [.tf] file,
    the [.tf] files that the walk finds when it is a directory; sorted. *)
Definition gather_tf_files (input_path : string) : list string :=
  let paths :=
    if isfile input_path && endswith input_path ".tf" then [input_path]
    else if isdir input_path then
      flat_map
        (fun entry =>
           let (root, files) := entry : string * list string in
           map (path_join root) (filter (fun fn => endswith fn ".tf") files))
        (walk input_path)
    else [] in
  sorted String.ltb (fun p => p) paths.

Definition transform_from_path (input_path : string) (include_ignored : bool)
  : envelope :=
  let tf_files := gather_tf_files input_path in
  make_envelope include_ignored
    (fold_left
       (fun st p => add_unit include_ignored p (parse_tf_file p) st)
       tf_files ([], [], [])).
End Transform.

(** ** Definitions used to state the properties *)

Local Notation "a +++ b" := (String.append a b)
  (at level 60, right associativity).

(** The strings that the pattern accepts, in the words of the
    specification: blanks, one span [${ x }] whose text [x] has no closing
    brace, blanks, and nothing else. *)
Definition pure_interpolation (s x : string) : Prop :=
  exists w1 w2,
    all_space w1 = true /\ all_space w2 = true /\
    contains_char "}" x = false /\
    s = w1 +++ "${" +++ x +++ "}" +++ w2.

(** The keys of [a] and [b] are in strictly ascending order. *)
Definition lt_kv (a b : string * value) : Prop :=
  String.ltb (fst a) (fst b) = true.

Definition le_kv : string * value -> string * value -> Prop :=
  key_le String.ltb kv_key.

Definition normalize_item (kv : string * value) : string * value :=
  (fst kv, normalize_value (snd kv)).

Definition kept (kv : string * value) : bool := negb (dropped_key (fst kv)).

(** The attributes of a record: the body without the four metadata keys,
    each value normalised, in the order of the keys. *)
Definition attributes_of (body : dict) : dict :=
  OrderedDict
    (sort_pairs (map normalize_item (snd (extract_meta body)))).

(** A provisioning key occurs in [v], at any depth. *)
Fixpoint has_dropped_key (v : value) : bool :=
  match v with
  | VList l => existsb has_dropped_key l
  | VDict kvs =>
      existsb (fun kv => dropped_key (fst kv) || has_dropped_key (snd kv)) kvs
  | _ => false
  end.

(** A declaration met by the collector: type, name and body. *)
Definition declaration : Type := (string * string * value)%type.

(** The declarations of a section, in the order in which the loops of
    [collect_from_doc] meet them. *)
Definition declarations (section : option value) : list declaration :=
  flat_map
    (fun entry : string * value =>
       if is_none (snd entry) then []
       else map (fun nb : string * value => (fst entry, fst nb, snd nb))
              (_iter_name_bodies (snd entry)))
    (_iter_resource_entries section).

Definition collect_declaration (kind : string) (include_ignored : bool)
    (st : collected) (d : declaration) : collected :=
  collect_decl kind include_ignored (fst (fst d)) (snd (fst d)) (snd d) st.

(** Two shapes of a section are interchangeable when two documents that
    differ only by having the one or the other as their resource section, or
    as their data section, collect the same records and diagnostics. *)
Definition interchangeable (s1 s2 : value) : Prop :=
  forall (doc1 doc2 : dict) (include_ignored : bool),
    (dict_get "resource" doc1 = Some s1 /\ dict_get "resource" doc2 = Some s2 /\
     dict_get "data" doc1 = dict_get "data" doc2) \/
    (dict_get "data" doc1 = Some s1 /\ dict_get "data" doc2 = Some s2 /\
     dict_get "resource" doc1 = dict_get "resource" doc2) ->
    collect_from_doc doc1 include_ignored = collect_from_doc doc2 include_ignored.

Definition in_service (k : service) (r : record) : bool :=
  service_eqb (r_service r) k.

(** [x] may stand before [y] in a bucket: the key of [y] is not below the
    key of [x]. *)
Definition record_le : record -> record -> Prop := key_le tuple_ltb record_key.

Definition rec_named (name : string) : record :=
  {| r_address := "aws_instance." +++ name; r_type := "aws_instance";
     r_name := name; r_service := Ec2; r_mode := "resource";
     r_provider_alias := None; r_depends_on := []; r_count := VNull;
     r_for_each := VNull; r_attributes := [] |}.

(** The sort key determines the element: two elements of the list with
    the same key are the same element. *)
Definition keys_determine {A} (key : A -> list string) (l : list A) : Prop :=
  forall x y, In x l -> In y l -> key x = key y -> x = y.

(** No list of the envelope holds two different entries with one sort key:
    no two records of a bucket share (type, name, address), and no two
    diagnostics share (kind, type, name, path, reason). *)
Definition unambiguous (env : envelope) : Prop :=
  (forall name b,
      In (name, b) (services env) ->
      keys_determine record_key (resources b) /\
      keys_determine record_key (data_sources b)) /\
  (forall ig, ignored env = Some ig -> keys_determine ignored_key ig).

(** What one unit adds to the three lists. *)
Definition unit_output (include_ignored : bool) (path : string)
    (parsed : parse_result) : accumulated :=
  add_unit include_ignored path parsed ([], [], []).

(** The files that a walk lists, each with its directory. *)
Definition walked_files (entries : list (string * list string))
  : list (string * string) :=
  flat_map (fun entry => map (pair (fst entry)) (snd entry)) entries.

(** Two files that declare one address with different bodies.  The texts
    A and B stand for the two sources; the parser answers with the documents
    that the HCL parser gives for them. *)
Definition doc_with_ami (ami : string) : dict :=
  [("resource",
     VList [VDict [("aws_instance", VDict [("web", VDict [("ami", VStr ami)])])]])].

Definition two_sources (content : string) : parse_result :=
  if String.eqb content "A" then Parsed (doc_with_ami "ami-1")
  else if String.eqb content "B" then Parsed (doc_with_ami "ami-2")
  else ParseError "unexpected token".

(** Sources that declare different addresses, and one the parser rejects. *)
Definition doc_with_instance (name : string) : dict :=
  [("resource", VDict [("aws_instance", VDict [(name, VDict [])]);
                       ("azurerm_vm", VDict [(name, VDict [])])])].

(** The scenario of the specification: an instance with an interpolated
    attribute and a literal count, and a declaration of another provider. *)
Definition scenario_doc : dict :=
  [("resource",
     VList
       [VDict [("aws_instance",
                 VDict [("web", VDict [("ami", VStr "${data.aws_ami.x.id}");
                                       ("count", VNum 2)])])];
        VDict [("azurerm_vm", VDict [("bad", VDict [])])]])].

Definition three_sources (content : string) : parse_result :=
  if String.eqb content "A" then Parsed (doc_with_instance "a")
  else if String.eqb content "B" then Parsed (doc_with_instance "b")
  else ParseError "unexpected token".

(** The same sources as files of a directory. *)
Definition disk_sources (path : string) : parse_result :=
  if String.eqb path "d/a.tf" then Parsed (doc_with_instance "a")
  else if String.eqb path "d/b.tf" then Parsed (doc_with_instance "b")
  else ParseError "unexpected token".

Definition slash_join (root fn : string) : string := root +++ "/" +++ fn.

(** Settles [keys_determine] on an explicit list whose keys differ. *)
Ltac decide_keys :=
  intros x y Hx Hy Hk; simpl in Hx, Hy;
  repeat match goal with
         | H : _ \/ _ |- _ => destruct H
         | H : False |- _ => destruct H
         end;
  subst; try reflexivity; vm_compute in Hk; discriminate Hk.

(** ** Definitions used to state further properties *)

(** The strings of [l] are in strictly ascending order. *)
Fixpoint ascending (l : list string) : bool :=
  match l with
  | [] => true
  | x :: t =>
      match t with
      | [] => true
      | y :: _ => String.ltb x y && ascending t
      end
  end.

(** A value in normal form: at every depth the keys of a mapping ascend
    strictly and none is a provisioning key, and no string is a pure
    interpolation. *)
Fixpoint normal (v : value) : bool :=
  match v with
  | VStr s => match EXPR_RE_match s with Some _ => false | None => true end
  | VList l => forallb normal l
  | VDict kvs =>
      ascending (map fst kvs)
      && forallb (fun kv => negb (dropped_key (fst kv)) && normal (snd kv)) kvs
  | _ => true
  end.

(** The keys that [extract_meta] pops. *)
Definition META_KEYS : list string := ["count"; "for_each"; "depends_on"; "provider"].

Definition is_meta_key (k : string) : bool := mem k META_KEYS.

(** What the record builder answers for a declaration of kind [kind]. *)
Definition built (kind : string) (d : declaration) : result :=
  make_record kind (fst (fst d)) (snd (fst d)) (snd d).

(** The records of the declarations that the builder accepts, in order. *)
Definition records_of (kind : string) (ds : list declaration) : list record :=
  flat_map (fun d => match built kind d with Ok r => [r] | Err _ => [] end) ds.

(** The diagnostics of the declarations that the builder refuses, in
    order. *)
Definition ignored_of (kind : string) (ds : list declaration) : list ignored_item :=
  flat_map
    (fun d =>
       match built kind d with
       | Ok _ => []
       | Err e => [IgnoredDecl kind (fst (fst d)) (snd (fst d)) e]
       end)
    ds.

(** A declaration as a single-entry mapping [{type: {name: body}}]. *)
Definition single_entry (d : declaration) : value :=
  VDict [(fst (fst d), VDict [(snd (fst d), snd d)])].

(** A section given as a sequence of single-entry mappings, one for each
    declaration, in order; a type may occur in several of them. *)
Definition sequence_of (ds : list declaration) : value :=
  VList (map single_entry ds).

(** The declarations listed by a section that may be missing. *)
Definition listed (o : option (list declaration)) : list declaration :=
  match o with Some ds => ds | None => [] end.

(** The outcome of a declaration of kind [kind] is among what was
    collected: its record among [rs] if the builder accepts it, its
    diagnostic among [ign] if the builder refuses it. *)
Definition visited (kind : string) (d : declaration)
    (rs : list record) (ign : list ignored_item) : Prop :=
  match built kind d with
  | Ok rec => In rec rs
  | Err e => In (IgnoredDecl kind (fst (fst d)) (snd (fst d)) e) ign
  end.

(** A record as the builder makes them for declarations of mode [mode]:
    the address joins type and name, the service is the one of the type,
    and the type is in the provider namespace. *)
Definition well_formed_record (mode : string) (r : record) : Prop :=
  r_mode r = mode /\
  r_address r = r_type r +++ "." +++ r_name r /\
  service_for_type (r_type r) = Some (r_service r) /\
  startswith (r_type r) "aws_" = true.

(** Two records tie in the order of [sort_records]: neither key is below
    the other. *)
Definition tied (a b : record) : bool :=
  negb (tuple_ltb (record_key a) (record_key b))
  && negb (tuple_ltb (record_key b) (record_key a)).

(** The records of all the buckets of an envelope, resources and data
    sources. *)
Definition all_resources (env : envelope) : list record :=
  flat_map (fun nb => resources (snd nb)) (services env).

Definition all_data_sources (env : envelope) : list record :=
  flat_map (fun nb => data_sources (snd nb)) (services env).

(** The path under which a file of a request is reported, and the text
    that is parsed for it. *)
Definition file_path (f : tf_file) : string :=
  match f_path f with
  | Some p => if truthy p then p else "<memory>"
  | None => "<memory>"
  end.

Definition file_content (f : tf_file) : string :=
  match f_content f with Some c => c | None => "" end.

(** The parser accepts the file. *)
Definition parses (parse : string -> parse_result) (f : tf_file) : bool :=
  match parse (file_content f) with Parsed _ => true | ParseError _ => false end.

Definition is_file_item (i : ignored_item) : bool :=
  match i with IgnoredFile _ _ => true | IgnoredDecl _ _ _ _ => false end.

(** The request that holds the files at [paths], each with the text that
    [read] finds there. *)
Definition files_of_paths (read : string -> string) (paths : list string)
  : list tf_file :=
  map (fun p => TfFile (Some p) (Some (read p))) paths.

(** Every record of the buckets of [env] is well formed for its list and
    sits in the bucket of its service. *)
Definition well_sorted_envelope (env : envelope) : Prop :=
  forall name b,
    In (name, b) (services env) ->
    Forall (fun r => well_formed_record "resource" r /\
                     service_name (r_service r) = name) (resources b) /\
    Forall (fun r => well_formed_record "data" r /\
                     service_name (r_service r) = name) (data_sources b).

(** * Properties *)

(** ** Examples of the model *)

Example scenario :
  transform_from_prompt (fun _ => Parsed scenario_doc)
    (Request [TfFile (Some "main.tf") (Some "...")] true)
  = {| version := "1.0";
       provider := "aws";
       services :=
         [("ec2",
            Bucket
              [{| r_address := "aws_instance.web"; r_type := "aws_instance";
                  r_name := "web"; r_service := Ec2; r_mode := "resource";
                  r_provider_alias := None; r_depends_on := [];
                  r_count := VNum 2; r_for_each := VNull;
                  r_attributes :=
                    [("ami", VDict [("$expr", VStr "data.aws_ami.x.id")])] |}]
              []);
          ("iam", Bucket [] []); ("rds", Bucket [] []);
          ("s3", Bucket [] []); ("vpc", Bucket [] [])];
       ignored :=
         Some [IgnoredDecl "resource" "azurerm_vm" "bad" non_aws_provider] |}.
Proof. reflexivity. Qed.

Example normalize_value_ex1 :
  normalize_value (VStr "${aws_instance.web.id}")
  = VDict [("$expr", VStr "aws_instance.web.id")].
Proof. reflexivity. Qed.

Example normalize_value_ex2 :
  normalize_value
    (VDict [("b", VStr " ${ var.x } "); ("provisioner", VNum 1);
            ("a", VList [VStr "prefix-${var.x}-suffix"; VNull])])
  = VDict [("a", VList [VStr "prefix-${var.x}-suffix"; VNull]);
           ("b", VDict [("$expr", VStr "var.x")])].
Proof. reflexivity. Qed.

Example py_str_ex :
  map py_str [VStr "aws_vpc.main"; VNum (-12); VNull; VBool true;
              VList [VStr "a'b"; VNum 0]; VDict [("k", VStr "v")]]
  = ["aws_vpc.main"; "-12"; "None"; "True";
     String "[" (String dquote ("a'b" ++ String dquote ", 0]")%string);
     "{'k': 'v'}"].
Proof. reflexivity. Qed.

(** ** The order on strings and on tuples of strings *)

Lemma ascii_compare_refl (c : ascii) : Ascii.compare c c = Eq.
Proof. unfold Ascii.compare. apply N.compare_refl. Qed.

Lemma ascii_compare_lt_trans (a b c : ascii) :
  Ascii.compare a b = Lt -> Ascii.compare b c = Lt -> Ascii.compare a c = Lt.
Proof.
  unfold Ascii.compare. rewrite !N.compare_lt_iff. apply N.lt_trans.
Qed.

Lemma string_compare_refl (s : string) : String.compare s s = Eq.
Proof.
  induction s as [|c s IH]; simpl; [reflexivity|].
  now rewrite ascii_compare_refl.
Qed.

Lemma string_compare_eq (a b : string) : String.compare a b = Eq <-> a = b.
Proof.
  split; [apply String.compare_eq_iff|].
  intros ->. apply string_compare_refl.
Qed.

Lemma string_compare_lt_trans (a b c : string) :
  String.compare a b = Lt -> String.compare b c = Lt -> String.compare a c = Lt.
Proof.
  revert b c. induction a as [|x a IH]; intros [|y b] [|z c]; simpl;
    try discriminate; try reflexivity.
  destruct (Ascii.compare x y) eqn:Hxy; try discriminate;
    destruct (Ascii.compare y z) eqn:Hyz; try discriminate; intros H1 H2.
  - apply Ascii.compare_eq_iff in Hxy, Hyz. subst.
    rewrite ascii_compare_refl. eauto.
  - apply Ascii.compare_eq_iff in Hxy. subst. now rewrite Hyz.
  - apply Ascii.compare_eq_iff in Hyz. subst. now rewrite Hxy.
  - now rewrite (ascii_compare_lt_trans _ _ _ Hxy Hyz).
Qed.

Lemma string_ltb_lt (a b : string) :
  String.ltb a b = true <-> String.compare a b = Lt.
Proof. unfold String.ltb. destruct (String.compare a b); intuition congruence. Qed.

Lemma string_ltb_irrefl (a : string) : String.ltb a a = false.
Proof. unfold String.ltb. now rewrite string_compare_refl. Qed.

Lemma string_ltb_trans (a b c : string) :
  String.ltb a b = true -> String.ltb b c = true -> String.ltb a c = true.
Proof. rewrite !string_ltb_lt. apply string_compare_lt_trans. Qed.

Lemma string_ltb_tricho (a b : string) :
  String.ltb a b = false -> String.ltb b a = false -> a = b.
Proof.
  unfold String.ltb. rewrite (String.compare_antisym b a).
  destruct (String.compare a b) eqn:H; simpl; try discriminate.
  intros _ _. now apply String.compare_eq_iff.
Qed.

Lemma tuple_ltb_irrefl (a : list string) : tuple_ltb a a = false.
Proof.
  induction a as [|x a IH]; simpl; [reflexivity|].
  now rewrite String.eqb_refl.
Qed.

Lemma tuple_ltb_trans (a b c : list string) :
  tuple_ltb a b = true -> tuple_ltb b c = true -> tuple_ltb a c = true.
Proof.
  revert b c. induction a as [|x a IH]; intros [|y b] [|z c]; simpl;
    try discriminate; try reflexivity.
  destruct (String.eqb_spec x y) as [->|Hxy];
    destruct (String.eqb_spec y z) as [->|Hyz]; intros H1 H2.
  - eauto.
  - exact H2.
  - destruct (String.eqb_spec x z); [congruence | exact H1].
  - destruct (String.eqb_spec x z) as [->|Hxz].
    + pose proof (string_ltb_trans _ _ _ H1 H2) as H.
      now rewrite string_ltb_irrefl in H.
    + eapply string_ltb_trans; eassumption.
Qed.

Lemma tuple_ltb_tricho (a b : list string) :
  tuple_ltb a b = false -> tuple_ltb b a = false -> a = b.
Proof.
  revert b. induction a as [|x a IH]; intros [|y b]; simpl;
    try discriminate; try reflexivity.
  rewrite (String.eqb_sym y x).
  destruct (String.eqb_spec x y) as [->|Hxy]; intros H1 H2.
  - f_equal. now apply IH.
  - destruct Hxy. now apply string_ltb_tricho.
Qed.

(** ** Facts about the stable sort *)

Section SortedFacts.
Context {A K : Type}.
Variable ltb : K -> K -> bool.
Variable key : A -> K.
Hypothesis ltb_irrefl : forall a, ltb a a = false.
Hypothesis ltb_trans :
  forall a b c, ltb a b = true -> ltb b c = true -> ltb a c = true.
Hypothesis ltb_tricho :
  forall a b, ltb a b = false -> ltb b a = false -> a = b.

Lemma key_le_refl x : key_le ltb key x x.
Proof. apply ltb_irrefl. Qed.

Lemma key_le_trans x y z : key_le ltb key x y -> key_le ltb key y z -> key_le ltb key x z.
Proof.
  unfold key_le. intros Hxy Hyz.
  destruct (ltb (key z) (key x)) eqn:Hzx; [|reflexivity].
  destruct (ltb (key x) (key y)) eqn:Hlt.
  - rewrite (ltb_trans _ _ _ Hzx Hlt) in Hyz. discriminate.
  - rewrite <- (ltb_tricho _ _ Hlt Hxy) in Hyz. congruence.
Qed.

Lemma key_le_total x y : key_le ltb key x y \/ key_le ltb key y x.
Proof.
  unfold key_le. destruct (ltb (key y) (key x)) eqn:H; [right|now left].
  destruct (ltb (key x) (key y)) eqn:H'; [|reflexivity].
  pose proof (ltb_trans _ _ _ H H') as C. rewrite ltb_irrefl in C. discriminate.
Qed.

Lemma key_le_antisym x y : key_le ltb key x y -> key_le ltb key y x -> key x = key y.
Proof. unfold key_le. intros H1 H2. now apply ltb_tricho. Qed.

Lemma insert_sorted_perm x l :
  Permutation (insert_sorted ltb key x l) (x :: l).
Proof.
  induction l as [|y t IH]; simpl; [reflexivity|].
  destruct (ltb (key y) (key x)); [|reflexivity].
  rewrite IH. apply perm_swap.
Qed.

Lemma sorted_perm l : Permutation (sorted ltb key l) l.
Proof.
  induction l as [|x t IH]; simpl; [reflexivity|].
  rewrite insert_sorted_perm. now constructor.
Qed.

Lemma insert_sorted_sorted x l :
  StronglySorted (key_le ltb key) l -> StronglySorted (key_le ltb key) (insert_sorted ltb key x l).
Proof.
  induction 1 as [|y t Ht IH Hy]; simpl.
  - repeat constructor.
  - destruct (ltb (key y) (key x)) eqn:Hyx.
    + constructor; [exact IH|].
      apply (Permutation_Forall (Permutation_sym (insert_sorted_perm x t))).
      constructor; [|exact Hy].
      destruct (key_le_total y x) as [H|H]; [exact H|].
      unfold key_le in H. congruence.
    + constructor; [now constructor|].
      constructor; [exact Hyx|].
      eapply Forall_impl; [|exact Hy].
      intros z Hz. eapply key_le_trans; [exact Hyx | exact Hz].
Qed.

Lemma sorted_sorted l : StronglySorted (key_le ltb key) (sorted ltb key l).
Proof.
  induction l as [|x t IH]; simpl; [constructor|].
  now apply insert_sorted_sorted.
Qed.

(** A sorted list is a fixed point of the sort. *)
Lemma sorted_id l : StronglySorted (key_le ltb key) l -> sorted ltb key l = l.
Proof.
  induction 1 as [|x t Ht IH Hx]; simpl; [reflexivity|].
  rewrite IH. destruct t as [|y t']; simpl; [reflexivity|].
  inversion Hx as [|? ? Hxy _]; subst. unfold key_le in Hxy.
  now rewrite Hxy.
Qed.

(** Two sorted arrangements of the same elements are equal as soon as the
    key determines the element. *)
Lemma sorted_unique l1 l2 :
  StronglySorted (key_le ltb key) l1 -> StronglySorted (key_le ltb key) l2 ->
  Permutation l1 l2 ->
  (forall x y, In x l1 -> In y l1 -> key x = key y -> x = y) ->
  l1 = l2.
Proof.
  intros H1. revert l2. induction H1 as [|x t1 Ht1 IH Hx]; intros l2 H2 Hp Hinj.
  - now apply Permutation_nil in Hp.
  - destruct H2 as [|y t2 Ht2 Hy].
    + apply Permutation_sym, Permutation_nil in Hp. discriminate.
    + assert (Hxy : x = y).
      { assert (Hin_y : In y (x :: t1)).
        { apply (Permutation_in _ (Permutation_sym Hp)). now left. }
        assert (Hin_x : In x (y :: t2)).
        { apply (Permutation_in _ Hp). now left. }
        apply Hinj; [now left | exact Hin_y |].
        apply key_le_antisym.
        - destruct Hin_y as [->|Hin]; [apply key_le_refl|].
          rewrite Forall_forall in Hx. now apply Hx.
        - destruct Hin_x as [->|Hin]; [apply key_le_refl|].
          rewrite Forall_forall in Hy. now apply Hy. }
      subst y. f_equal. apply IH; [exact Ht2 | |].
      * eapply Permutation_cons_inv. exact Hp.
      * intros a b Ha Hb. apply Hinj; now right.
Qed.

Lemma sorted_perm_eq l1 l2 :
  Permutation l1 l2 ->
  (forall x y, In x l1 -> In y l1 -> key x = key y -> x = y) ->
  sorted ltb key l1 = sorted ltb key l2.
Proof.
  intros Hp Hinj. apply sorted_unique; try apply sorted_sorted.
  - rewrite !sorted_perm. exact Hp.
  - intros x y Hx Hy. apply Hinj; eapply Permutation_in; eauto using sorted_perm.
Qed.

(** In a sorted list an element with a smaller key stands first. *)
Lemma sorted_lt_before l1 x l2 y l3 :
  StronglySorted (key_le ltb key) (l1 ++ x :: l2 ++ y :: l3) -> ltb (key y) (key x) = false.
Proof.
  induction l1 as [|a l1 IH]; simpl; intros H; inversion H as [|? ? Ht Hf]; subst.
  - rewrite Forall_forall in Hf. apply Hf. apply in_or_app. right. now left.
  - now apply IH.
Qed.
End SortedFacts.

Section SortedMap.
Context {A B K : Type}.
Variable ltb : K -> K -> bool.
Variable keyA : A -> K.
Variable keyB : B -> K.
Variable f : A -> B.
Hypothesis key_f : forall x, keyB (f x) = keyA x.

Lemma insert_sorted_map x l :
  insert_sorted ltb keyB (f x) (map f l) = map f (insert_sorted ltb keyA x l).
Proof.
  induction l as [|y t IH]; simpl; [reflexivity|].
  rewrite !key_f. destruct (ltb (keyA y) (keyA x)); simpl; congruence.
Qed.

(** Sorting commutes with a map that keeps the keys. *)
Lemma sorted_map l :
  sorted ltb keyB (map f l) = map f (sorted ltb keyA l).
Proof.
  induction l as [|x t IH]; simpl; [reflexivity|].
  rewrite IH. apply insert_sorted_map.
Qed.
End SortedMap.

(** ** Blanks, trimming and the interpolation pattern *)

Lemma append_assoc (a b c : string) : (a +++ b) +++ c = a +++ b +++ c.
Proof. induction a as [|x a IH]; simpl; congruence. Qed.

Lemma append_empty_r (a : string) : a +++ "" = a.
Proof. induction a as [|x a IH]; simpl; congruence. Qed.

Lemma lstrip_blank_app (w s : string) :
  all_space w = true -> lstrip (w +++ s) = lstrip s.
Proof.
  induction w as [|c w IH]; simpl; [reflexivity|].
  intros H. apply andb_true_iff in H as [Hc Hw]. rewrite Hc. auto.
Qed.

Lemma lstrip_split (s : string) :
  exists w, all_space w = true /\ s = w +++ lstrip s.
Proof.
  induction s as [|c s [w [Hw Hs]]]; simpl.
  - now exists "".
  - destruct (is_space c) eqn:Hc.
    + exists (String c w). simpl. rewrite Hc, Hw.
      split; [reflexivity | f_equal; exact Hs].
    + now exists "".
Qed.

Lemma lstrip_idem (s : string) : lstrip (lstrip s) = lstrip s.
Proof.
  induction s as [|c s IH]; simpl; [reflexivity|].
  destruct (is_space c) eqn:Hc; [exact IH|]. simpl. now rewrite Hc.
Qed.

Lemma lstrip_head (s : string) (c : ascii) (r : string) :
  lstrip s = String c r -> is_space c = false.
Proof.
  induction s as [|a s IH]; simpl; [discriminate|].
  destruct (is_space a) eqn:Ha; [exact IH|].
  intros H. injection H as -> _. exact Ha.
Qed.

(** Blanks are trimmed up to the first character that is not one. *)
Lemma lstrip_app_stop (x : string) (c : ascii) (r : string) :
  is_space c = false -> lstrip (x +++ String c r) = lstrip x +++ String c r.
Proof.
  intros Hc. induction x as [|a x IH]; simpl.
  - now rewrite Hc.
  - destruct (is_space a); [exact IH | reflexivity].
Qed.

Lemma lstrip_no_rbrace (x : string) :
  contains_char "}" x = false -> contains_char "}" (lstrip x) = false.
Proof.
  induction x as [|a x IH]; simpl; [reflexivity|].
  intros H. apply orb_false_iff in H as [Ha Hx].
  destruct (is_space a); [auto|]. simpl. now rewrite Ha, Hx.
Qed.

Lemma rstrip_blank (w : string) : all_space w = true -> rstrip w = "".
Proof.
  induction w as [|c w IH]; simpl; [reflexivity|].
  intros H. apply andb_true_iff in H as [Hc Hw]. now rewrite (IH Hw), Hc.
Qed.

Lemma rstrip_app_blank (s w : string) :
  all_space w = true -> rstrip (s +++ w) = rstrip s.
Proof.
  intros Hw. induction s as [|c s IH]; simpl.
  - now apply rstrip_blank.
  - now rewrite IH.
Qed.

(** Trimming does not depend on how many of the surrounding blanks were
    already removed. *)
Lemma strip_blank_app (w1 s w2 : string) :
  all_space w1 = true -> all_space w2 = true ->
  strip (w1 +++ s +++ w2) = strip s.
Proof.
  intros H1 H2. unfold strip. rewrite (lstrip_blank_app _ _ H1).
  destruct (lstrip_split s) as [w [Hw Hs]].
  destruct (lstrip s) as [|c r] eqn:Hl.
  - rewrite append_empty_r in Hs. subst s.
    assert (Hb : all_space (w +++ w2) = true).
    { clear Hl. induction w as [|a w IH]; simpl in *; [exact H2|].
      apply andb_true_iff in Hw as [Ha Hw]. now rewrite Ha, IH. }
    rewrite <- (append_empty_r (w +++ w2)), (lstrip_blank_app _ _ Hb). reflexivity.
  - pose proof (lstrip_head _ _ _ Hl) as Hc.
    rewrite Hs at 1. rewrite append_assoc, (lstrip_blank_app _ _ Hw).
    assert (E : lstrip (String c r +++ w2) = String c r +++ w2)
      by (simpl; now rewrite Hc).
    rewrite E. now apply rstrip_app_blank.
Qed.

Lemma contains_char_app (c : ascii) (a b : string) :
  contains_char c (a +++ b) = contains_char c a || contains_char c b.
Proof.
  induction a as [|x a IH]; simpl; [reflexivity|].
  now rewrite IH, orb_assoc.
Qed.

Lemma blank_no_rbrace (w : string) :
  all_space w = true -> contains_char "}" w = false.
Proof.
  induction w as [|c w IH]; simpl; [reflexivity|].
  intros H. apply andb_true_iff in H as [Hc Hw]. rewrite (IH Hw), orb_false_r.
  destruct (Ascii.eqb_spec c "}") as [->|]; [discriminate Hc | reflexivity].
Qed.

Lemma take_non_rbrace_app (x r : string) :
  contains_char "}" x = false ->
  take_non_rbrace (x +++ String "}" r) = (x, String "}" r).
Proof.
  induction x as [|c x IH]; simpl; [reflexivity|].
  intros H. apply orb_false_iff in H as [Hc Hx].
  unfold is_rbrace. now rewrite Hc, (IH Hx).
Qed.

Lemma take_non_rbrace_spec (s a b : string) :
  take_non_rbrace s = (a, b) ->
  s = a +++ b /\ contains_char "}" a = false.
Proof.
  revert a b. induction s as [|c s IH]; simpl; intros a b H.
  - injection H as <- <-. now split.
  - unfold is_rbrace in H. destruct (Ascii.eqb c "}") eqn:Hc.
    + injection H as <- <-. now split.
    + destruct (take_non_rbrace s) as [a' b'] eqn:Ht. injection H as <- <-.
      destruct (IH _ _ eq_refl) as [-> Ha]. simpl. now rewrite Hc, Ha.
Qed.

(** The matcher accepts exactly the strings of [pure_interpolation], and the
    trimmed group is the trimmed text of the span. *)
Lemma EXPR_RE_match_complete (s x : string) :
  pure_interpolation s x ->
  exists inner, EXPR_RE_match s = Some inner /\ strip inner = strip x.
Proof.
  intros (w1 & w2 & H1 & H2 & Hx & ->). exists (lstrip x). split.
  - unfold EXPR_RE_match. rewrite (lstrip_blank_app _ _ H1). simpl.
    rewrite (lstrip_app_stop x "}" w2 eq_refl).
    rewrite (take_non_rbrace_app _ _ (lstrip_no_rbrace _ Hx)).
    now rewrite H2.
  - unfold strip. now rewrite lstrip_idem.
Qed.

Lemma EXPR_RE_match_sound (s inner : string) :
  EXPR_RE_match s = Some inner ->
  exists x, pure_interpolation s x /\ strip inner = strip x.
Proof.
  unfold EXPR_RE_match. intros H.
  destruct (lstrip_split s) as (w1 & Hw1 & Hs).
  destruct (lstrip s) as [|c1 [|c2 r]]; try discriminate.
  destruct (Ascii.eqb_spec c1 "$") as [->|]; [|discriminate].
  destruct (Ascii.eqb_spec c2 "{") as [->|]; [|discriminate].
  simpl in H. destruct (lstrip_split r) as (w & Hw & Hr).
  destruct (take_non_rbrace (lstrip r)) as [i rest] eqn:Ht.
  destruct (take_non_rbrace_spec _ _ _ Ht) as [Hl Hi].
  destruct rest as [|c3 tl]; [discriminate|].
  unfold is_rbrace in H. destruct (Ascii.eqb_spec c3 "}") as [->|]; [|discriminate].
  destruct (all_space tl) eqn:Htl; [|discriminate]. injection H as ->.
  exists (w +++ inner). split.
  - exists w1, tl. repeat split; try assumption.
    + now rewrite contains_char_app, (blank_no_rbrace _ Hw), Hi.
    + rewrite Hs at 1. f_equal. simpl. do 2 f_equal.
      rewrite Hr at 1. rewrite Hl. now rewrite append_assoc.
  - rewrite <- (append_empty_r inner) at 2.
    symmetry. now apply strip_blank_app.
Qed.

Lemma EXPR_RE_match_iff (s : string) :
  (exists inner, EXPR_RE_match s = Some inner) <-> (exists x, pure_interpolation s x).
Proof.
  split.
  - intros (inner & H). apply EXPR_RE_match_sound in H as (x & Hx & _). now exists x.
  - intros (x & H). apply EXPR_RE_match_complete in H as (inner & H & _).
    now exists inner.
Qed.

(** In the pattern the blanks around the group are matched by their own
    quantifiers; however they are split between these and the group, the
    trimmed group is the same. *)
Lemma EXPR_RE_group_trimmed (s w1 w2 inner w3 w4 : string) :
  all_space w1 = true -> all_space w2 = true ->
  all_space w3 = true -> all_space w4 = true ->
  contains_char "}" inner = false ->
  s = w1 +++ "${" +++ w2 +++ inner +++ w3 +++ "}" +++ w4 ->
  exists g, EXPR_RE_match s = Some g /\ strip g = strip inner.
Proof.
  intros H1 H2 H3 H4 Hi ->.
  destruct (EXPR_RE_match_complete
              (w1 +++ "${" +++ w2 +++ inner +++ w3 +++ "}" +++ w4)
              (w2 +++ inner +++ w3)) as (g & Hg & Hs).
  - exists w1, w4. repeat split; try assumption.
    + now rewrite !contains_char_app, (blank_no_rbrace _ H2),
        (blank_no_rbrace _ H3), Hi.
    + now rewrite !append_assoc.
  - exists g. split; [exact Hg|]. rewrite Hs. now apply strip_blank_app.
Qed.

(** ** Ordered dicts built from sorted items *)

Lemma lt_kv_le_kv a b : lt_kv a b -> le_kv a b.
Proof.
  unfold lt_kv, le_kv, key_le, kv_key. intros H.
  destruct (String.ltb (fst b) (fst a)) eqn:H'; [|reflexivity].
  pose proof (string_ltb_trans _ _ _ H H') as C.
  now rewrite string_ltb_irrefl in C.
Qed.

Lemma StronglySorted_mono {A} (R S : A -> A -> Prop) (l : list A) :
  (forall a b, R a b -> S a b) -> StronglySorted R l -> StronglySorted S l.
Proof.
  intros HRS. induction 1 as [|x t Ht IH Hx]; constructor; [exact IH|].
  eapply Forall_impl; [|exact Hx]. auto.
Qed.

Lemma StronglySorted_filter {A} (R : A -> A -> Prop) (p : A -> bool) (l : list A) :
  StronglySorted R l -> StronglySorted R (filter p l).
Proof.
  induction 1 as [|x t Ht IH Hx]; simpl; [constructor|].
  destruct (p x); [|exact IH]. constructor; [exact IH|].
  rewrite Forall_forall in *. intros y Hy. apply Hx.
  apply filter_In in Hy. tauto.
Qed.

Lemma dict_set_in k v d x : In x (dict_set k v d) -> x = (k, v) \/ In x d.
Proof.
  induction d as [|[k' v'] t IH]; simpl.
  - intuition.
  - destruct (String.eqb k k'); simpl; intuition.
Qed.

Lemma dict_set_fresh k v d :
  ~ In k (keys d) -> dict_set k v d = d ++ [(k, v)].
Proof.
  induction d as [|[k' v'] t IH]; simpl; [reflexivity|].
  intros H. destruct (String.eqb_spec k k') as [->|Hk]; [tauto|].
  rewrite IH; tauto.
Qed.

(** Assigning a key that is not below the keys of a strictly sorted dict
    keeps it strictly sorted. *)
Lemma dict_set_sorted k v d :
  StronglySorted lt_kv d ->
  Forall (fun a => le_kv a (k, v)) d ->
  StronglySorted lt_kv (dict_set k v d).
Proof.
  induction 1 as [|[k' v'] t Ht IH Hx]; simpl; intros Hle.
  - repeat constructor.
  - inversion Hle as [|? ? Hk Hle']; subst.
    destruct (String.eqb_spec k k') as [->|Hne].
    + constructor; assumption.
    + constructor; [auto|].
      rewrite Forall_forall in *. intros x Hin.
      apply dict_set_in in Hin as [->|Hin]; [|auto].
      unfold le_kv, key_le, kv_key in Hk. unfold lt_kv. simpl in *.
      destruct (String.ltb k' k) eqn:E; [reflexivity|].
      destruct Hne. now apply string_ltb_tricho.
Qed.

Lemma OrderedDict_fold_sorted items : forall acc,
  StronglySorted lt_kv acc ->
  StronglySorted le_kv items ->
  (forall a i, In a acc -> In i items -> le_kv a i) ->
  let out := fold_left (fun out kv => dict_set (fst kv) (snd kv) out) items acc in
  StronglySorted lt_kv out /\ (forall x, In x out -> In x acc \/ In x items).
Proof.
  induction items as [|[k v] t IH]; simpl; intros acc Hacc Hit Hle.
  - auto.
  - inversion Hit as [|? ? Ht Hk]; subst. rewrite Forall_forall in Hk.
    destruct (IH (dict_set k v acc)) as [Hs Hin].
    + apply dict_set_sorted; [exact Hacc|].
      rewrite Forall_forall. intros a Ha. apply Hle; [exact Ha | now left].
    + exact Ht.
    + intros a i Ha Hi. apply dict_set_in in Ha as [->|Ha]; [now apply Hk|].
      apply Hle; [exact Ha | now right].
    + split; [exact Hs|]. intros x Hx.
      destruct (Hin x Hx) as [H|H]; [|now right; right].
      apply dict_set_in in H as [->|H]; [right; now left | now left].
Qed.

(** Built from items sorted by key, an ordered dict has strictly ascending
    keys, and each of its entries is one of the items. *)
Lemma OrderedDict_sorted items :
  StronglySorted le_kv items ->
  StronglySorted lt_kv (OrderedDict items) /\
  (forall x, In x (OrderedDict items) -> In x items).
Proof.
  intros H.
  destruct (OrderedDict_fold_sorted items [] (SSorted_nil _) H) as [Hs Hin].
  - intros a i [].
  - split; [exact Hs|]. intros x Hx. destruct (Hin x Hx) as [[]|]; assumption.
Qed.

Lemma OrderedDict_fold_NoDup items : forall acc,
  NoDup (keys (acc ++ items)) ->
  fold_left (fun out kv => dict_set (fst kv) (snd kv) out) items acc
  = acc ++ items.
Proof.
  induction items as [|[k v] t IH]; simpl; intros acc H.
  - now rewrite app_nil_r.
  - rewrite dict_set_fresh.
    + rewrite IH; rewrite <- app_assoc; [reflexivity | exact H].
    + unfold keys in H. rewrite map_app in H. simpl in H.
      apply NoDup_remove_2 in H. intros Hin. apply H, in_or_app. now left.
Qed.

(** From items with distinct keys, [OrderedDict] builds the items. *)
Lemma OrderedDict_NoDup items :
  NoDup (keys items) -> OrderedDict items = items.
Proof. intros H. unfold OrderedDict. now rewrite OrderedDict_fold_NoDup. Qed.

Lemma lt_kv_sorted_NoDup d : StronglySorted lt_kv d -> NoDup (keys d).
Proof.
  induction 1 as [|x t Ht IH Hx]; simpl; constructor; [|exact IH].
  intros Hin. apply in_map_iff in Hin as (y & Hy & Hin).
  rewrite Forall_forall in Hx. specialize (Hx y Hin).
  unfold lt_kv in Hx. rewrite Hy, string_ltb_irrefl in Hx. discriminate.
Qed.

Lemma sort_items_sorted (d : dict) : StronglySorted le_kv (sort_items d).
Proof.
  apply sorted_sorted;
    [apply string_ltb_irrefl | apply string_ltb_trans | apply string_ltb_tricho].
Qed.

Lemma sort_items_id (d : dict) : StronglySorted le_kv d -> sort_items d = d.
Proof. apply sorted_id. Qed.

Lemma sort_items_perm (d : dict) : Permutation (sort_items d) d.
Proof. apply sorted_perm. Qed.

(** ** The value normaliser *)

(** The loop of [normalize_value] over a dict, in the order of the source:
    the items are sorted, the provisioning keys are skipped, and each value
    is normalised when it is stored. *)
Lemma normalize_value_dict (kvs : dict) :
  normalize_value (VDict kvs)
  = VDict (OrderedDict (map normalize_item (filter kept (sort_items kvs)))).
Proof.
  simpl. do 2 f_equal. unfold sort_items.
  rewrite (sorted_map String.ltb kv_key kv_key normalize_item) by reflexivity.
  generalize (sorted String.ltb kv_key kvs). intros l.
  induction l as [|x t IH]; simpl; [reflexivity|].
  unfold kept at 1. simpl. destruct (dropped_key (fst x)); simpl; congruence.
Qed.

(** What [normalize_value] returns for a dict: strictly ascending keys, none
    of them a provisioning key, and values that are normalised values of the
    input. *)
Lemma normalize_value_dict_shape (kvs : dict) :
  exists out,
    normalize_value (VDict kvs) = VDict out /\
    StronglySorted lt_kv out /\
    (forall x, In x out ->
       kept x = true /\ exists kv, In kv kvs /\ x = normalize_item kv).
Proof.
  eexists. split; [reflexivity|].
  destruct (OrderedDict_sorted
              (filter (fun kv => negb (dropped_key (fst kv)))
                 (sort_items (map normalize_item kvs)))) as [Hs Hin].
  - apply StronglySorted_filter, sort_items_sorted.
  - split; [exact Hs|]. intros x Hx. apply Hin, filter_In in Hx as [Hx Hk].
    split; [exact Hk|].
    apply (Permutation_in _ (sort_items_perm _)), in_map_iff in Hx
      as (kv & <- & Hkv).
    now exists kv.
Qed.

(** A dict with strictly ascending keys, no provisioning key and values
    that normalisation leaves alone is left alone. *)
Lemma normalize_value_dict_fixed (d : dict) :
  StronglySorted lt_kv d ->
  (forall x, In x d -> kept x = true /\ normalize_item x = x) ->
  normalize_value (VDict d) = VDict d.
Proof.
  intros Hs Hd. rewrite normalize_value_dict. f_equal.
  rewrite sort_items_id
    by (eapply StronglySorted_mono; [apply lt_kv_le_kv | exact Hs]).
  assert (Hf : filter kept d = d).
  { clear Hs. induction d as [|x t IH]; simpl; [reflexivity|].
    destruct (Hd x (or_introl eq_refl)) as [-> _].
    f_equal. apply IH. intros y Hy. apply Hd. now right. }
  rewrite Hf.
  assert (Hm : map normalize_item d = d).
  { clear Hs Hf. induction d as [|x t IH]; simpl; [reflexivity|].
    destruct (Hd x (or_introl eq_refl)) as [_ ->].
    f_equal. apply IH. intros y Hy. apply Hd. now right. }
  rewrite Hm. apply OrderedDict_NoDup, lt_kv_sorted_NoDup, Hs.
Qed.

Lemma EXPR_RE_match_no_rbrace (s inner : string) :
  EXPR_RE_match s = Some inner -> contains_char "}" (strip inner) = false.
Proof.
  intros H. apply EXPR_RE_match_sound in H as (x & (w1 & w2 & _ & _ & Hx & _) & ->).
  unfold strip. apply lstrip_no_rbrace in Hx. revert Hx.
  generalize (lstrip x). intros r. induction r as [|c r IH]; simpl; [reflexivity|].
  intros H. apply orb_false_iff in H as [Hc Hr]. specialize (IH Hr).
  destruct (rstrip r); simpl in *.
  - destruct (is_space c); simpl; [reflexivity | now rewrite Hc].
  - now rewrite Hc, IH.
Qed.

Lemma EXPR_RE_match_needs_rbrace (s : string) :
  contains_char "}" s = false -> EXPR_RE_match s = None.
Proof.
  intros H. destruct (EXPR_RE_match s) as [i|] eqn:E; [|reflexivity].
  apply EXPR_RE_match_sound in E as (x & (w1 & w2 & _ & _ & _ & ->) & _).
  assert (E : w1 +++ "${" +++ x +++ "}" +++ w2
              = (w1 +++ "${" +++ x) +++ String "}" w2)
    by now rewrite !append_assoc.
  rewrite E, contains_char_app in H. simpl in H.
  rewrite orb_true_r in H. discriminate.
Qed.

(** C2. The value normaliser is idempotent on every value: normalising a
    normalised value returns it unchanged. *)
Theorem normalize_value_idempotent (v : value) :
  normalize_value (normalize_value v) = normalize_value v.
Proof.
  induction v as [| b | z | r | s | l IH | kvs IH] using value_ind'; try reflexivity.
  - simpl. destruct (EXPR_RE_match s) as [inner|] eqn:E.
    + unfold expr_tag. simpl.
      now rewrite (EXPR_RE_match_needs_rbrace _ (EXPR_RE_match_no_rbrace _ _ E)).
    + simpl. now rewrite E.
  - simpl. f_equal. rewrite map_map. apply map_ext_Forall. exact IH.
  - destruct (normalize_value_dict_shape kvs) as (out & -> & Hs & Hout).
    apply normalize_value_dict_fixed; [exact Hs|].
    intros x Hx. destruct (Hout x Hx) as (Hk & kv & Hkv & ->).
    split; [exact Hk|]. unfold normalize_item. simpl. f_equal.
    rewrite Forall_forall in IH. exact (IH kv Hkv).
Qed.

Lemma NoDupb_NoDup (l : list string) : NoDup l -> NoDupb l = true.
Proof.
  induction 1 as [|x t Hx _ IH]; simpl; [reflexivity|].
  rewrite IH, andb_true_r. apply negb_true_iff, not_true_is_false.
  intros H. apply existsb_exists in H as (y & Hy & E).
  apply String.eqb_eq in E. now subst.
Qed.

(** Whatever the keys of its input, the normaliser returns a value in
    which the keys of every mapping are distinct. *)
Lemma normalize_value_wf (v : value) : wf_value (normalize_value v) = true.
Proof.
  induction v as [| b | z | r | s | l IH | kvs IH] using value_ind'; try reflexivity.
  - simpl. destruct (EXPR_RE_match s); reflexivity.
  - simpl. induction IH as [|x t Hx _ IHt]; simpl; [reflexivity|].
    now rewrite Hx, IHt.
  - destruct (normalize_value_dict_shape kvs) as (out & -> & Hs & Hout).
    simpl. pose proof (NoDupb_NoDup _ (lt_kv_sorted_NoDup _ Hs)) as Hn.
    unfold keys in Hn. rewrite Hn. simpl.
    apply forallb_forall. intros x Hx.
    destruct (Hout x Hx) as (_ & kv & Hkv & ->). simpl.
    rewrite Forall_forall in IH. exact (IH kv Hkv).
Qed.

(** C7. Expression detection.  A string that is one interpolation span
    (blanks, the span, blanks, and nothing else) normalises to the one-key
    mapping that tags the trimmed text of the span; every other string is
    returned as it is.  In particular the reference to an instance id is
    tagged, and a string with text around the span is a literal. *)
Theorem normalize_value_string :
  (forall s x,
      pure_interpolation s x ->
      normalize_value (VStr s) = VDict [("$expr", VStr (strip x))]) /\
  (forall s,
      (forall x, ~ pure_interpolation s x) ->
      normalize_value (VStr s) = VStr s) /\
  normalize_value (VStr "${aws_instance.web.id}")
  = VDict [("$expr", VStr "aws_instance.web.id")] /\
  normalize_value (VStr "prefix-${var.x}-suffix")
  = VStr "prefix-${var.x}-suffix".
Proof.
  split; [|split; [|split; reflexivity]].
  - intros s x H. apply EXPR_RE_match_complete in H as (inner & E & Hs).
    simpl. now rewrite E, Hs.
  - intros s H. simpl. destruct (EXPR_RE_match s) as [inner|] eqn:E; [|reflexivity].
    apply EXPR_RE_match_sound in E as (x & Hx & _). now destruct (H x).
Qed.

Lemma normalize_value_string_witness :
  pure_interpolation "  ${ var.region }  " " var.region " /\
  normalize_value (VStr "  ${ var.region }  ")
  = VDict [("$expr", VStr "var.region")] /\
  (forall x, ~ pure_interpolation "${a}${b}" x) /\
  normalize_value (VStr "${a}${b}") = VStr "${a}${b}".
Proof.
  assert (H : pure_interpolation "  ${ var.region }  " " var.region ").
  { exists "  ", "  ". repeat split; reflexivity. }
  assert (H' : forall x, ~ pure_interpolation "${a}${b}" x).
  { intros x Hx. apply EXPR_RE_match_complete in Hx as (inner & E & _).
    vm_compute in E. discriminate E. }
  split; [exact H|]. split; [exact (proj1 normalize_value_string _ _ H)|].
  split; [exact H'|].
  exact (proj1 (proj2 normalize_value_string) _ H').
Defined.

(** ** The metadata extractor *)

Lemma dict_get_remove_ne (k k' : string) (d : dict) :
  k <> k' -> dict_get k (dict_remove k' d) = dict_get k d.
Proof.
  intros Hne. induction d as [|[a v] t IH]; simpl; [reflexivity|].
  destruct (String.eqb_spec k' a) as [->|Ha]; simpl.
  - destruct (String.eqb_spec k a); [contradiction | exact IH].
  - destruct (String.eqb_spec k a); [reflexivity | exact IH].
Qed.

Lemma keys_dict_remove (k k' : string) (d : dict) :
  In k (keys (dict_remove k' d)) <-> In k (keys d) /\ k <> k'.
Proof.
  unfold keys, dict_remove. rewrite !in_map_iff. split.
  - intros (x & <- & Hx). apply filter_In in Hx as [Hx Hk]. split.
    + now exists x.
    + intros E. rewrite E, String.eqb_refl in Hk. discriminate.
  - intros [(x & <- & Hx) Hne]. exists x. split; [reflexivity|].
    apply filter_In. split; [exact Hx|].
    destruct (String.eqb_spec k' (fst x)); [congruence | reflexivity].
Qed.

(** The dict that [extract_meta] leaves behind. *)
Lemma extract_meta_attrs (attrs : dict) :
  snd (extract_meta attrs)
  = dict_remove "provider"
      (dict_remove "depends_on" (dict_remove "for_each" (dict_remove "count" attrs))).
Proof. reflexivity. Qed.

Lemma _to_expr_or_val_normalize (s : string) :
  _to_expr_or_val (VStr s) = normalize_value (VStr s).
Proof. reflexivity. Qed.

(** The alias that the extractor returns, read off the attributes. *)
Lemma extract_meta_provider_alias (attrs : dict) :
  m_provider_alias (fst (extract_meta attrs))
  = match dict_get "provider" attrs with
    | Some (VStr s) => Some s
    | _ => None
    end.
Proof.
  unfold extract_meta, dict_pop. cbv zeta. simpl fst. cbn [m_provider_alias].
  rewrite !dict_get_remove_ne by discriminate.
  destruct (dict_get "provider" attrs) as [[]|]; reflexivity.
Qed.

(** C8. The metadata extractor.  [count] and [for_each] go through the
    expression rule of the normaliser when they are strings, pass unchanged
    when they are anything else, and are null when absent; [depends_on] is a
    sequence of strings: the elements of a sequence converted one by one, a
    single element for any other value, nothing when absent (or null);
    [provider_alias] is the provider when that is a string, and null
    otherwise. *)
Theorem extract_meta_spec (attrs : dict) :
  let m := fst (extract_meta attrs) in
  m_count m
  = match dict_get "count" attrs with
    | None => VNull
    | Some (VStr s) => normalize_value (VStr s)
    | Some v => v
    end /\
  m_for_each m
  = match dict_get "for_each" attrs with
    | None => VNull
    | Some (VStr s) => normalize_value (VStr s)
    | Some v => v
    end /\
  m_depends m
  = match dict_get "depends_on" attrs with
    | None | Some VNull => []
    | Some (VList l) => map py_str l
    | Some v => [py_str v]
    end /\
  m_provider_alias m
  = match dict_get "provider" attrs with
    | Some (VStr s) => Some s
    | _ => None
    end.
Proof.
  unfold extract_meta, dict_pop. cbv zeta. simpl fst.
  cbn [m_count m_for_each m_depends m_provider_alias].
  rewrite !dict_get_remove_ne by discriminate.
  repeat split.
  - destruct (dict_get "count" attrs) as [[]|]; reflexivity.
  - destruct (dict_get "for_each" attrs) as [[]|]; reflexivity.
  - destruct (dict_get "depends_on" attrs) as [[]|]; reflexivity.
  - destruct (dict_get "provider" attrs) as [[]|]; reflexivity.
Qed.

Example extract_meta_ex :
  extract_meta
    [("ami", VStr "${data.aws_ami.x.id}"); ("count", VNum 2);
     ("for_each", VStr "${var.names}");
     ("depends_on", VList [VStr "aws_vpc.main"; VNum 7]);
     ("provider", VStr "aws.west")]
  = (Meta (VNum 2) (VDict [("$expr", VStr "var.names")])
       ["aws_vpc.main"; "7"] (Some "aws.west"),
     [("ami", VStr "${data.aws_ami.x.id}")]).
Proof. reflexivity. Qed.

(** ** The classification table and the record builder *)

Lemma startswith_split (t p : string) :
  startswith t p = true -> exists r, t = p +++ r.
Proof.
  unfold startswith. revert t. induction p as [|c p IH]; intros t; simpl.
  - intros _. now exists t.
  - destruct t as [|d t]; simpl; [discriminate|].
    destruct (ascii_dec c d) as [->|]; [|discriminate].
    intros H. destruct (IH _ H) as [r ->]. now exists r.
Qed.

Lemma prefix_empty (r : string) : String.prefix "" r = true.
Proof. now destruct r. Qed.

Lemma mem_In (t : string) (l : list string) : mem t l = true <-> In t l.
Proof.
  unfold mem. rewrite existsb_exists. split.
  - intros (x & Hx & E). apply String.eqb_eq in E. now subst.
  - intros H. exists t. split; [exact H | apply String.eqb_refl].
Qed.



(** Every mapped type is in the provider namespace. *)
Lemma service_for_type_aws (t : string) (svc : service) :
  service_for_type t = Some svc -> startswith t "aws_" = true.
Proof.
  unfold service_for_type, IAM_PREFIX, S3_PREFIX, RDS_PREFIXES. simpl existsb.
  destruct (startswith t "aws_iam_") eqn:H1.
  { apply startswith_split in H1 as [r ->].
    unfold startswith; simpl; rewrite ?prefix_empty; reflexivity. }
  destruct (startswith t "aws_s3_") eqn:H2.
  { apply startswith_split in H2 as [r ->].
    unfold startswith; simpl; rewrite ?prefix_empty; reflexivity. }
  destruct (startswith t "aws_rds_") eqn:H3.
  { apply startswith_split in H3 as [r ->].
    unfold startswith; simpl; rewrite ?prefix_empty; reflexivity. }
  destruct (startswith t "aws_db_") eqn:H4.
  { apply startswith_split in H4 as [r ->].
    unfold startswith; simpl; rewrite ?prefix_empty; reflexivity. }
  cbn [orb]. destruct (mem t VPC_TYPES) eqn:H5.
  { apply mem_In in H5. simpl in H5. intros _.
    repeat (destruct H5 as [<-|H5]; [reflexivity|]). destruct H5. }
  destruct (mem t EC2_TYPES) eqn:H6; [|discriminate].
  apply mem_In in H6. simpl in H6. intros _.
  repeat (destruct H6 as [<-|H6]; [reflexivity|]). destruct H6.
Qed.



(** An empty alias counts as no alias: the declaration is accepted and
    the alias of the record is null. *)
Example make_record_empty_alias :
  make_record "data" "aws_ami" "x" (VDict [("provider", VStr "")])
  = Ok {| r_address := "aws_ami.x"; r_type := "aws_ami"; r_name := "x";
          r_service := Ec2; r_mode := "data"; r_provider_alias := None;
          r_depends_on := []; r_count := VNull; r_for_each := VNull;
          r_attributes := [] |}.
Proof. reflexivity. Qed.

Lemma make_record_Ok_inv (kind rtype name : string) (body : value) (rec : record) :
  make_record kind rtype name body = Ok rec ->
  exists attrs,
    body = VDict attrs /\
    service_for_type rtype = Some (r_service rec) /\
    r_type rec = rtype /\ r_name rec = name /\
    r_address rec = rtype +++ "." +++ name /\
    r_attributes rec = attributes_of attrs.
Proof.
  unfold make_record.
  destruct (startswith rtype "aws_"); [|discriminate].
  destruct (service_for_type rtype) as [svc|]; [|discriminate].
  destruct body as [| | | | | |attrs]; try discriminate. simpl negb. cbv iota.
  destruct (extract_meta attrs) as [m attrs'] eqn:E.
  destruct (match m_provider_alias m with Some _ => _ | None => _ end);
    [discriminate|].
  intros H. injection H as <-. exists attrs. simpl. repeat split.
  unfold attributes_of. now rewrite E.
Qed.

Lemma OrderedDict_fold_incl items : forall acc x,
  In x (fold_left (fun out kv => dict_set (fst kv) (snd kv) out) items acc) ->
  In x acc \/ In x items.
Proof.
  induction items as [|[k v] t IH]; simpl; intros acc x H; [now left|].
  apply IH in H as [H|H]; [|now right; right].
  apply dict_set_in in H as [->|H]; [right; now left | now left].
Qed.

(** Every entry of an ordered dict is one of the items it was built from. *)
Lemma OrderedDict_incl items x : In x (OrderedDict items) -> In x items.
Proof.
  intros H. apply OrderedDict_fold_incl in H as [[]|H]. exact H.
Qed.

(** Each entry of the attributes comes from an entry of the body whose key
    is none of the metadata keys, with its value normalised. *)
Lemma attributes_of_entry (body : dict) (x : string * value) :
  In x (attributes_of body) ->
  exists kv, In kv body /\ x = normalize_item kv /\
             ~ In (fst kv) ["count"; "for_each"; "depends_on"; "provider"].
Proof.
  unfold attributes_of. intros H. apply OrderedDict_incl in H.
  apply (Permutation_in _ (sorted_perm String.ltb kv_key _)) in H.
  apply in_map_iff in H as (kv & <- & Hkv). exists kv.
  rewrite extract_meta_attrs in Hkv.
  assert (Hk : In (fst kv) (keys (dict_remove "provider"
             (dict_remove "depends_on" (dict_remove "for_each"
                (dict_remove "count" body)))))) by (apply in_map; exact Hkv).
  apply keys_dict_remove in Hk as [Hk H4].
  apply keys_dict_remove in Hk as [Hk H3].
  apply keys_dict_remove in Hk as [Hk H2].
  apply keys_dict_remove in Hk as [Hk H1].
  unfold dict_remove in Hkv. repeat (apply filter_In in Hkv as [Hkv _]).
  split; [exact Hkv|]. split; [reflexivity|].
  simpl. intuition congruence.
Qed.

(** C5. Metadata isolation.  The attributes of a record that the builder
    returns have none of the keys [count], [for_each], [depends_on] and
    [provider], whatever the body of the declaration held. *)
Theorem make_record_metadata_isolation
    (kind rtype name : string) (body : value) (rec : record) (k : string) :
  make_record kind rtype name body = Ok rec ->
  In k ["count"; "for_each"; "depends_on"; "provider"] ->
  ~ In k (keys (r_attributes rec)).
Proof.
  intros H Hk Hin. apply make_record_Ok_inv in H as (attrs & _ & _ & _ & _ & _ & Ha).
  rewrite Ha in Hin. apply in_map_iff in Hin as (x & <- & Hx).
  apply attributes_of_entry in Hx as (kv & _ & -> & Hn). exact (Hn Hk).
Qed.

Lemma make_record_metadata_isolation_witness :
  let body :=
    VDict [("count", VNum 2); ("ami", VStr "ami-1"); ("provider", VStr "aws.west");
           ("for_each", VNull); ("depends_on", VList [VStr "aws_vpc.main"])] in
  let rec :=
    {| r_address := "aws_instance.web"; r_type := "aws_instance";
       r_name := "web"; r_service := Ec2; r_mode := "resource";
       r_provider_alias := Some "aws.west"; r_depends_on := ["aws_vpc.main"];
       r_count := VNum 2; r_for_each := VNull;
       r_attributes := [("ami", VStr "ami-1")] |} in
  make_record "resource" "aws_instance" "web" body = Ok rec /\
  ~ In "count" (keys (r_attributes rec)).
Proof.
  intros body rec.
  assert (H : make_record "resource" "aws_instance" "web" body = Ok rec)
    by reflexivity.
  split; [exact H|].
  exact (make_record_metadata_isolation _ _ _ _ _ "count" H (or_introl eq_refl)).
Defined.

(** ** Provisioning keys *)

(** The normaliser removes the provisioning keys of every mapping it
    reaches. *)
Lemma normalize_value_drops (v : value) :
  has_dropped_key (normalize_value v) = false.
Proof.
  induction v as [| b | z | r | s | l IH | kvs IH] using value_ind'; try reflexivity.
  - simpl. destruct (EXPR_RE_match s); reflexivity.
  - simpl. induction IH as [|x t Hx _ IHt]; simpl; [reflexivity|].
    now rewrite Hx, IHt.
  - destruct (normalize_value_dict_shape kvs) as (out & -> & _ & Hout).
    simpl. apply not_true_is_false. intros H.
    apply existsb_exists in H as (x & Hx & Hd).
    destruct (Hout x Hx) as (Hk & kv & Hkv & ->).
    unfold kept in Hk. simpl in Hk, Hd.
    rewrite Forall_forall in IH. rewrite (IH kv Hkv), orb_false_r in Hd.
    rewrite Hd in Hk. discriminate.
Qed.

(** The record builder normalises the values of the body, not the body:
    below the top level the attributes have no provisioning key. *)
Lemma make_record_values_clean
    (kind rtype name : string) (body : value) (rec : record) :
  make_record kind rtype name body = Ok rec ->
  forall k v, In (k, v) (r_attributes rec) -> has_dropped_key v = false.
Proof.
  intros H k v Hin.
  apply make_record_Ok_inv in H as (attrs & _ & _ & _ & _ & _ & Ha).
  rewrite Ha in Hin. apply attributes_of_entry in Hin as (kv & _ & E & _).
  injection E as _ ->. apply normalize_value_drops.
Qed.

(** C4. A provisioner or connection block at the top level of a body is
    not dropped: the builder accepts the declaration below and its
    attributes hold both keys.  (The connection nested in the provisioner
    is dropped.) *)
Theorem make_record_keeps_top_level_provisioner :
  make_record "resource" "aws_instance" "web"
    (VDict
       [("ami", VStr "ami-123");
        ("provisioner",
          VList [VDict [("local-exec",
                          VDict [("command", VStr "echo done");
                                 ("connection", VDict [("host", VStr "h")])])]]);
        ("connection", VList [VDict [("user", VStr "root")]])])
  = Ok {| r_address := "aws_instance.web"; r_type := "aws_instance";
          r_name := "web"; r_service := Ec2; r_mode := "resource";
          r_provider_alias := None; r_depends_on := [];
          r_count := VNull; r_for_each := VNull;
          r_attributes :=
            [("ami", VStr "ami-123");
             ("connection", VList [VDict [("user", VStr "root")]]);
             ("provisioner",
               VList [VDict [("local-exec",
                               VDict [("command", VStr "echo done")])]])] |}.
Proof. reflexivity. Qed.

(** ** The document collector *)

Lemma fold_left_flat_map {A B S} (f : S -> B -> S) (g : A -> list B)
    (l : list A) (st : S) :
  fold_left f (flat_map g l) st = fold_left (fun st a => fold_left f (g a) st) l st.
Proof.
  revert st. induction l as [|a t IH]; intros st; simpl; [reflexivity|].
  now rewrite fold_left_app, IH.
Qed.

Lemma fold_left_map {A B S} (f : S -> B -> S) (g : A -> B) (l : list A) (st : S) :
  fold_left f (map g l) st = fold_left (fun st a => f st (g a)) l st.
Proof.
  revert st. induction l as [|a t IH]; intros st; simpl; [reflexivity|apply IH].
Qed.

Lemma fold_left_ext {A S} (f g : S -> A -> S) (l : list A) (st : S) :
  (forall s a, f s a = g s a) -> fold_left f l st = fold_left g l st.
Proof.
  intros H. revert st. induction l as [|a t IH]; intros st; simpl; [reflexivity|].
  now rewrite H, IH.
Qed.

(** The two nested loops visit the declarations of the section in order. *)
Lemma collect_section_declarations kind include_ignored section st :
  collect_section kind include_ignored section st
  = fold_left (collect_declaration kind include_ignored) (declarations section) st.
Proof.
  unfold collect_section, declarations. rewrite fold_left_flat_map.
  apply fold_left_ext. intros s [rtype blocks]. simpl.
  destruct (is_none blocks); [reflexivity|].
  rewrite fold_left_map. apply fold_left_ext. now intros s' [name body].
Qed.

(** The collector as a function of the declarations of its two sections. *)
Lemma collect_from_doc_declarations (doc : dict) (include_ignored : bool) :
  collect_from_doc doc include_ignored
  = let r := fold_left (collect_declaration "resource" include_ignored)
               (declarations (dict_get "resource" doc)) ([], []) in
    let d := fold_left (collect_declaration "data" include_ignored)
               (declarations (dict_get "data" doc)) ([], snd r) in
    (fst r, fst d, snd d).
Proof.
  unfold collect_from_doc. rewrite collect_section_declarations.
  destruct (fold_left _ _ _) as [rs ig]. rewrite collect_section_declarations.
  simpl. now destruct (fold_left _ _ _).
Qed.

Lemma interchangeable_declarations (s1 s2 : value) :
  declarations (Some s1) = declarations (Some s2) -> interchangeable s1 s2.
Proof.
  intros H doc1 doc2 incl. rewrite !collect_from_doc_declarations.
  intros [(-> & -> & ->)|(-> & -> & ->)]; now rewrite H.
Qed.

(** The collector, declaration by declaration. *)
Lemma fold_collect_declaration (kind : string) (include_ignored : bool)
    (ds : list declaration) : forall rs ig,
  fold_left (collect_declaration kind include_ignored) ds (rs, ig)
  = (rs ++ records_of kind ds,
     ig ++ if include_ignored then ignored_of kind ds else []).
Proof.
  induction ds as [|d t IH]; intros rs ig; simpl.
  - destruct include_ignored; now rewrite !app_nil_r.
  - unfold collect_declaration at 2, collect_decl. fold (built kind d).
    destruct (built kind d) as [r|e]; simpl.
    + rewrite IH. now rewrite <- app_assoc.
    + destruct include_ignored; rewrite IH; simpl; [|reflexivity].
      now rewrite <- app_assoc.
Qed.

(** The three lists of the collector. *)
Lemma collect_from_doc_lists (doc : dict) (include_ignored : bool) :
  collect_from_doc doc include_ignored
  = (records_of "resource" (declarations (dict_get "resource" doc)),
     records_of "data" (declarations (dict_get "data" doc)),
     if include_ignored
     then ignored_of "resource" (declarations (dict_get "resource" doc))
          ++ ignored_of "data" (declarations (dict_get "data" doc))
     else []).
Proof.
  rewrite collect_from_doc_declarations. cbv zeta.
  rewrite !fold_collect_declaration. simpl.
  now destruct include_ignored.
Qed.

Lemma flat_map_singleton {A B} (f : A -> list B) (a : A) :
  flat_map f [a] = f a.
Proof. simpl. apply app_nil_r. Qed.

Lemma iter_resource_entries_seq (ds : list dict) :
  _iter_resource_entries (Some (VList (map VDict ds))) = List.concat ds.
Proof.
  simpl. induction ds as [|d t IH]; simpl; congruence.
Qed.

Lemma iter_name_bodies_seq (ds : list dict) :
  _iter_name_bodies (VList (map VDict ds)) = List.concat ds.
Proof.
  simpl. induction ds as [|d t IH]; simpl; congruence.
Qed.

(** A sequence of single-entry mappings lists its declarations, one for
    each entry, repeated types included. *)
Lemma declarations_sequence_of (ds : list declaration) :
  declarations (Some (sequence_of ds)) = ds.
Proof.
  unfold declarations, sequence_of. cbn [_iter_resource_entries].
  induction ds as [|[[t n] b] l IH]; [reflexivity|].
  simpl. simpl in IH. now rewrite IH.
Qed.

Lemma declarations_listed (o : option (list declaration)) :
  declarations (option_map sequence_of o) = listed o.
Proof. destruct o as [ds|]; [apply declarations_sequence_of | reflexivity]. Qed.

Lemma records_of_In (kind : string) (d : declaration) (ds : list declaration)
    (rec : record) :
  In d ds -> built kind d = Ok rec -> In rec (records_of kind ds).
Proof.
  intros Hin Hb. unfold records_of. apply in_flat_map. exists d.
  split; [exact Hin|]. rewrite Hb. now left.
Qed.

Lemma ignored_of_In (kind : string) (d : declaration) (ds : list declaration)
    (e : reason) :
  In d ds -> built kind d = Err e ->
  In (IgnoredDecl kind (fst (fst d)) (snd (fst d)) e) (ignored_of kind ds).
Proof.
  intros Hin Hb. unfold ignored_of. apply in_flat_map. exists d.
  split; [exact Hin|]. rewrite Hb. now left.
Qed.

(** C3. Shape equivalence.  A section given as a mapping and as a sequence
    holding that mapping collect the same; a sequence of single-entry
    mappings that repeat one type collects every instance, as the mapping
    of the type to all the instances does; a sequence of mappings is read
    as the concatenation of their entries; and the same holds one level
    down, for the blocks of a type given as a mapping of names to bodies or
    as a sequence of such mappings.  What is collected is the outcome of
    every instance: a document whose sections are sequences of single-entry
    mappings (or are missing) collects exactly the records of the accepted
    declarations and the diagnostics of the refused ones, in order, so
    every declaration of such a sequence is visited, whether or not its type
    occurs again in a later entry; and a section that is the direct mapping
    of one type to one instance collects the outcome of the record builder
    on that instance. *)
Theorem collect_from_doc_shape_equivalence :
  (forall entries : dict,
      interchangeable (VDict entries) (VList [VDict entries])) /\
  (forall (t : string) (instances : dict),
      interchangeable
        (VList (map (fun nb => VDict [(t, VDict [nb])]) instances))
        (VDict [(t, VDict instances)])) /\
  (forall ds : list dict,
      _iter_resource_entries (Some (VList (map VDict ds))) = List.concat ds) /\
  (forall (pre post : dict) (t : string) (instances : dict),
      interchangeable
        (VDict (pre ++ (t, VDict instances) :: post))
        (VDict (pre ++ (t, VList [VDict instances]) :: post))) /\
  (forall (t : string) (instances : dict),
      interchangeable
        (VDict [(t, VList (map (fun nb => VDict [nb]) instances))])
        (VDict [(t, VDict instances)])) /\
  (forall ds : list dict,
      _iter_name_bodies (VList (map VDict ds)) = List.concat ds) /\
  (forall (r d : option (list declaration)) (doc : dict) (include_ignored : bool),
      dict_get "resource" doc = option_map sequence_of r ->
      dict_get "data" doc = option_map sequence_of d ->
      collect_from_doc doc include_ignored
      = (records_of "resource" (listed r),
         records_of "data" (listed d),
         if include_ignored
         then ignored_of "resource" (listed r) ++ ignored_of "data" (listed d)
         else [])) /\
  (forall (ds : list declaration) (doc : dict) (d : declaration),
      In d ds ->
      (dict_get "resource" doc = Some (sequence_of ds) ->
       let '(rs, _, ign) := collect_from_doc doc true in
       visited "resource" d rs ign) /\
      (dict_get "data" doc = Some (sequence_of ds) ->
       let '(_, datas, ign) := collect_from_doc doc true in
       visited "data" d datas ign)) /\
  (forall (t n : string) (body : value) (doc : dict) (include_ignored : bool),
      dict_get "resource" doc = Some (VDict [(t, VDict [(n, body)])]) ->
      dict_get "data" doc = None ->
      collect_from_doc doc include_ignored
      = match make_record "resource" t n body with
        | Ok rec => ([rec], [], [])
        | Err e =>
            ([], [],
             if include_ignored then [IgnoredDecl "resource" t n e] else [])
        end).
Proof.
  split; [|split; [|split; [|split; [|split; [|split; [|split; [|split]]]]]]].
  - intros entries. apply interchangeable_declarations.
    unfold declarations. simpl. now rewrite app_nil_r.
  - intros t instances. apply interchangeable_declarations.
    unfold declarations. simpl. rewrite app_nil_r.
    induction instances as [|nb l IH]; simpl; [reflexivity|].
    now rewrite IH.
  - apply iter_resource_entries_seq.
  - intros pre post t instances. apply interchangeable_declarations.
    unfold declarations. simpl. rewrite !flat_map_app. simpl.
    now rewrite app_nil_r.
  - intros t instances. apply interchangeable_declarations.
    unfold declarations. simpl. rewrite !app_nil_r. f_equal.
    induction instances as [|nb l IH]; simpl; congruence.
  - apply iter_name_bodies_seq.
  - intros r d doc incl Hr Hd. rewrite collect_from_doc_lists, Hr, Hd.
    now rewrite !declarations_listed.
  - intros ds doc d Hin. split; intros Hs.
    + rewrite collect_from_doc_lists, Hs, declarations_sequence_of.
      unfold visited. destruct (built "resource" d) as [rec|e] eqn:Hb.
      * now apply records_of_In with (d := d).
      * apply in_or_app. left. now apply ignored_of_In.
    + rewrite collect_from_doc_lists, Hs, declarations_sequence_of.
      unfold visited. destruct (built "data" d) as [rec|e] eqn:Hb.
      * now apply records_of_In with (d := d).
      * apply in_or_app. right. now apply ignored_of_In.
  - intros t n body doc incl Hr Hd. rewrite collect_from_doc_lists, Hr, Hd.
    unfold declarations, records_of, ignored_of, built. cbn.
    destruct (make_record "resource" t n body) as [rec|e];
      now destruct incl.
Qed.

Lemma collect_from_doc_shape_equivalence_witness :
  let body := VDict [("ami", VStr "${data.aws_ami.x.id}"); ("count", VNum 2)] in
  let doc1 := [("resource", VDict [("aws_instance", VDict [("web", body)])])] in
  let doc2 := [("resource", VList [VDict [("aws_instance", VDict [("web", body)])]])] in
  let doc3 := [("data", VDict [("aws_ami", VDict [("x", body); ("y", VDict [])])])] in
  let doc4 := [("data", VList [VDict [("aws_ami", VDict [("x", body)])];
                               VDict [("aws_ami", VDict [("y", VDict [])])]])] in
  let doc5 := [("data", VDict [("aws_ami", VList [VDict [("x", body); ("y", VDict [])]])])] in
  let doc6 :=
    [("resource",
       VList [VDict [("aws_instance", VDict [("b", body)])];
              VDict [("azurerm_vm", VDict [("bad", VDict [])])];
              VDict [("aws_instance", VDict [("a", VDict [])])]])] in
  collect_from_doc doc1 true = collect_from_doc doc2 true /\
  collect_from_doc doc4 true = collect_from_doc doc3 true /\
  collect_from_doc doc3 true = collect_from_doc doc5 true /\
  map r_address (fst (fst (collect_from_doc doc6 true)))
  = ["aws_instance.b"; "aws_instance.a"] /\
  In (IgnoredDecl "resource" "azurerm_vm" "bad" non_aws_provider)
     (snd (collect_from_doc doc6 true)) /\
  map r_address (fst (fst (collect_from_doc doc1 true))) = ["aws_instance.web"].
Proof.
  intros body doc1 doc2 doc3 doc4 doc5 doc6.
  destruct collect_from_doc_shape_equivalence
    as (H1 & H2 & _ & H4 & _ & _ & H7 & H8 & H9).
  split; [|split; [|split; [|split; [|split]]]].
  - apply (H1 [("aws_instance", VDict [("web", body)])] doc1 doc2 true).
    left. repeat split; reflexivity.
  - apply (H2 "aws_ami" [("x", body); ("y", VDict [])] doc4 doc3 true).
    right. repeat split; reflexivity.
  - apply (H4 [] [] "aws_ami" [("x", body); ("y", VDict [])] doc3 doc5 true).
    right. repeat split; reflexivity.
  - rewrite (H7 (Some [("aws_instance", "b", body);
                       ("azurerm_vm", "bad", VDict []);
                       ("aws_instance", "a", VDict [])])
               None doc6 true eq_refl eq_refl).
    reflexivity.
  - destruct (H8 [("aws_instance", "b", body);
                  ("azurerm_vm", "bad", VDict []);
                  ("aws_instance", "a", VDict [])]
                doc6 ("azurerm_vm", "bad", VDict [])) as [Hr _].
    + right. left. reflexivity.
    + specialize (Hr eq_refl).
      destruct (collect_from_doc doc6 true) as [[rs datas] ign]. exact Hr.
  - rewrite (H9 "aws_instance" "web" body doc1 true eq_refl eq_refl).
    reflexivity.
Defined.

Example collect_from_doc_repeated_type :
  let doc :=
    [("resource",
       VList [VDict [("aws_instance", VDict [("b", VDict [])])];
              VDict [("azurerm_vm", VDict [("bad", VDict [])])];
              VDict [("aws_instance", VDict [("a", VDict [])])]])] in
  let '(rs, datas, ign) := collect_from_doc doc true in
  map r_address rs = ["aws_instance.b"; "aws_instance.a"] /\
  datas = [] /\
  ign = [IgnoredDecl "resource" "azurerm_vm" "bad" non_aws_provider].
Proof. repeat split. Qed.

(** C10. Declarations that vanish without a diagnostic.  An entry whose
    instance blocks are neither a mapping nor a sequence, an element of a
    sequence of blocks that is not a mapping, and an element of a section
    sequence that is not a mapping contribute nothing: the collector
    returns what it returns without them, no record and no ignored item,
    whether or not diagnostics are requested. *)
Theorem collect_from_doc_silent_drop :
  (forall (pre post : dict) (t : string) (blocks : value),
      is_dict blocks = false -> is_list blocks = false ->
      interchangeable (VDict (pre ++ (t, blocks) :: post)) (VDict (pre ++ post))) /\
  (forall (pre post : dict) (t : string) (bs1 bs2 : list value) (x : value),
      is_dict x = false ->
      interchangeable
        (VDict (pre ++ (t, VList (bs1 ++ x :: bs2)) :: post))
        (VDict (pre ++ (t, VList (bs1 ++ bs2)) :: post))) /\
  (forall (es1 es2 : list value) (x : value),
      is_dict x = false ->
      interchangeable (VList (es1 ++ x :: es2)) (VList (es1 ++ es2))) /\
  (forall (es1 es2 : list value) (pre post : dict) (t : string) (blocks : value),
      is_dict blocks = false -> is_list blocks = false ->
      interchangeable
        (VList (es1 ++ VDict (pre ++ (t, blocks) :: post) :: es2))
        (VList (es1 ++ VDict (pre ++ post) :: es2))) /\
  (forall (t : string) (blocks : value) (include_ignored : bool),
      is_dict blocks = false -> is_list blocks = false ->
      collect_from_doc [("resource", VDict [(t, blocks)])] include_ignored
      = ([], [], []) /\
      collect_from_doc [("data", VDict [(t, blocks)])] include_ignored
      = ([], [], [])) /\
  (forall (t : string) (x : value) (include_ignored : bool),
      is_dict x = false ->
      collect_from_doc [("resource", VDict [(t, VList [x])])] include_ignored
      = ([], [], []) /\
      collect_from_doc [("resource", VList [x])] include_ignored
      = ([], [], [])).
Proof.
  assert (Hscalar : forall t blocks,
             is_dict blocks = false -> is_list blocks = false ->
             (if is_none blocks then []
              else map (fun nb : string * value => (t, fst nb, snd nb))
                     (_iter_name_bodies blocks)) = @nil declaration).
  { intros t blocks Hd Hl. destruct blocks; try discriminate; reflexivity. }
  repeat split.
  - intros pre post t blocks Hd Hl. apply interchangeable_declarations.
    unfold declarations. simpl. rewrite !flat_map_app. simpl.
    now rewrite (Hscalar t blocks Hd Hl).
  - intros pre post t bs1 bs2 x Hx. apply interchangeable_declarations.
    unfold declarations. simpl. rewrite !flat_map_app. simpl.
    rewrite !flat_map_app. simpl. destruct x; try discriminate; reflexivity.
  - intros es1 es2 x Hx. apply interchangeable_declarations.
    unfold declarations. simpl. rewrite !flat_map_app. simpl.
    destruct x; try discriminate; reflexivity.
  - intros es1 es2 pre post t blocks Hd Hl. apply interchangeable_declarations.
    unfold declarations. simpl. rewrite !flat_map_app. simpl.
    rewrite !flat_map_app. simpl. now rewrite (Hscalar t blocks Hd Hl).
  - rewrite collect_from_doc_declarations. unfold declarations. simpl.
    now rewrite (Hscalar t blocks H H0).
  - rewrite collect_from_doc_declarations. unfold declarations. simpl.
    now rewrite (Hscalar t blocks H H0).
  - destruct x; try discriminate; reflexivity.
  - destruct x; try discriminate; reflexivity.
Qed.

Lemma collect_from_doc_silent_drop_witness :
  let web := VDict [("web", VDict [])] in
  collect_from_doc
    [("resource", VDict [("aws_instance", VStr "oops"); ("aws_vpc", VNum 3)])] true
  = collect_from_doc [("resource", VDict [("aws_vpc", VNum 3)])] true /\
  collect_from_doc [("resource", VDict [("aws_instance", VStr "oops")])] true
  = ([], [], []) /\
  collect_from_doc
    [("resource", VDict [("aws_instance", VList [VStr "oops"; web])])] true
  = collect_from_doc [("resource", VDict [("aws_instance", VList [web])])] true /\
  collect_from_doc
    [("data", VList [VDict [("aws_ami", web)]; VNum 7])] true
  = collect_from_doc [("data", VList [VDict [("aws_ami", web)]])] true.
Proof.
  intros web.
  destruct collect_from_doc_silent_drop as (H1 & H2 & H3 & _ & H5 & _).
  split; [|split; [|split]].
  - apply (H1 [] [("aws_vpc", VNum 3)] "aws_instance" (VStr "oops") eq_refl eq_refl).
    left. repeat split; reflexivity.
  - apply (H5 "aws_instance" (VStr "oops") true eq_refl eq_refl).
  - apply (H2 [] [] "aws_instance" [] [web] (VStr "oops") eq_refl).
    left. repeat split; reflexivity.
  - apply (H3 [VDict [("aws_ami", web)]] [] (VNum 7) eq_refl).
    right. repeat split; reflexivity.
Defined.

(** ** The service organiser *)

Lemma service_eqb_spec (a b : service) : reflect (a = b) (service_eqb a b).
Proof. destruct a, b; constructor; congruence. Qed.

Lemma update_bucket_keys k f m : map fst (update_bucket k f m) = map fst m.
Proof.
  induction m as [|[k' b] t IH]; simpl; [reflexivity|].
  destruct (service_eqb k k'); simpl; congruence.
Qed.

Lemma get_update_same k f m :
  In k (map fst m) -> get_bucket k (update_bucket k f m) = f (get_bucket k m).
Proof.
  induction m as [|[k' b] t IH]; simpl; [tauto|].
  destruct (service_eqb_spec k k') as [<-|Hne]; simpl.
  - destruct (service_eqb_spec k k); [reflexivity | congruence].
  - destruct (service_eqb_spec k k'); [congruence|]. intros [H|H]; [congruence|auto].
Qed.

Lemma get_update_other k k' f m :
  k <> k' -> get_bucket k (update_bucket k' f m) = get_bucket k m.
Proof.
  intros Hne. induction m as [|[a b] t IH]; simpl; [reflexivity|].
  destruct (service_eqb_spec k' a) as [<-|Ha]; simpl.
  - destruct (service_eqb_spec k k'); [congruence | reflexivity].
  - destruct (service_eqb_spec k a); [reflexivity | exact IH].
Qed.

Lemma fold_update_keys {A} (step : list (service * bucket) -> A -> list (service * bucket))
    (l : list A) (m : list (service * bucket)) :
  (forall m a, map fst (step m a) = map fst m) ->
  map fst (fold_left step l m) = map fst m.
Proof.
  intros H. revert m. induction l as [|a t IH]; intros m; simpl; [reflexivity|].
  now rewrite IH, H.
Qed.

Lemma fold_add_resources (rs : list record) : forall m k,
  In k (map fst m) ->
  get_bucket k
    (fold_left
       (fun services r =>
          update_bucket (r_service r)
            (fun b => Bucket (resources b ++ [r]) (data_sources b)) services)
       rs m)
  = Bucket (resources (get_bucket k m) ++ filter (in_service k) rs)
      (data_sources (get_bucket k m)).
Proof.
  induction rs as [|r t IH]; intros m k Hk; simpl.
  - rewrite app_nil_r. now destruct (get_bucket k m).
  - rewrite IH by now rewrite update_bucket_keys.
    unfold in_service at 2. destruct (service_eqb_spec (r_service r) k) as [<-|Hne].
    + rewrite get_update_same by exact Hk. simpl. now rewrite <- app_assoc.
    + rewrite get_update_other by congruence. reflexivity.
Qed.

Lemma fold_add_data_sources (ds : list record) : forall m k,
  In k (map fst m) ->
  get_bucket k
    (fold_left
       (fun services d =>
          update_bucket (r_service d)
            (fun b => Bucket (resources b) (data_sources b ++ [d])) services)
       ds m)
  = Bucket (resources (get_bucket k m))
      (data_sources (get_bucket k m) ++ filter (in_service k) ds).
Proof.
  induction ds as [|r t IH]; intros m k Hk; simpl.
  - rewrite app_nil_r. now destruct (get_bucket k m).
  - rewrite IH by now rewrite update_bucket_keys.
    unfold in_service at 2. destruct (service_eqb_spec (r_service r) k) as [<-|Hne].
    + rewrite get_update_same by exact Hk. simpl. now rewrite <- app_assoc.
    + rewrite get_update_other by congruence. reflexivity.
Qed.

Lemma fold_sort_buckets_other (ks : list service) : forall m k,
  ~ In k ks -> get_bucket k
    (fold_left
       (fun services k =>
          update_bucket k
            (fun b => Bucket (resources b) (sort_records (data_sources b)))
            (update_bucket k
               (fun b => Bucket (sort_records (resources b)) (data_sources b))
               services))
       ks m)
  = get_bucket k m.
Proof.
  induction ks as [|a t IH]; intros m k Hk; simpl; [reflexivity|].
  rewrite IH by (intros H; apply Hk; now right).
  rewrite !get_update_other; [reflexivity| |]; intros ->; apply Hk; now left.
Qed.

Lemma fold_sort_buckets (ks : list service) : forall m k,
  NoDup ks -> In k ks -> In k (map fst m) ->
  get_bucket k
    (fold_left
       (fun services k =>
          update_bucket k
            (fun b => Bucket (resources b) (sort_records (data_sources b)))
            (update_bucket k
               (fun b => Bucket (sort_records (resources b)) (data_sources b))
               services))
       ks m)
  = Bucket (sort_records (resources (get_bucket k m)))
      (sort_records (data_sources (get_bucket k m))).
Proof.
  induction ks as [|a t IH]; intros m k Hnd Hin Hk; simpl; [destruct Hin|].
  inversion Hnd as [|? ? Ha Ht]; subst.
  destruct Hin as [->|Hin].
  - rewrite fold_sort_buckets_other by exact Ha.
    rewrite !get_update_same; rewrite ?update_bucket_keys; auto.
  - rewrite IH; rewrite ?update_bucket_keys; auto.
    assert (k <> a) by (intros ->; contradiction).
    now rewrite !get_update_other.
Qed.

(** The bucket of each service: its records, sorted. *)
Lemma organize_by_service_bucket (rs datas : list record) (k : service) :
  get_bucket k (organize_by_service rs datas)
  = Bucket (sort_records (filter (in_service k) rs))
      (sort_records (filter (in_service k) datas)).
Proof.
  assert (Hk : In k SERVICES_KEYS) by (destruct k; simpl; tauto).
  unfold organize_by_service.
  rewrite fold_sort_buckets; [| | exact Hk |].
  - rewrite fold_add_data_sources, fold_add_resources.
    + simpl. now destruct k.
    + now destruct k; simpl; tauto.
    + rewrite fold_update_keys; [destruct k; simpl; tauto|].
      intros. apply update_bucket_keys.
  - repeat constructor; simpl; intuition discriminate.
  - rewrite !fold_update_keys; try (intros; apply update_bucket_keys).
    destruct k; simpl; tauto.
Qed.

Lemma organize_by_service_keys (rs datas : list record) :
  map fst (organize_by_service rs datas) = SERVICES_KEYS.
Proof.
  unfold organize_by_service.
  rewrite !fold_update_keys; try reflexivity;
    intros; rewrite ?update_bucket_keys; reflexivity.
Qed.

Lemma sort_records_sorted (l : list record) : StronglySorted record_le (sort_records l).
Proof.
  apply sorted_sorted;
    [apply tuple_ltb_irrefl | apply tuple_ltb_trans | apply tuple_ltb_tricho].
Qed.

Lemma sort_records_perm (l : list record) : Permutation (sort_records l) l.
Proof. apply sorted_perm. Qed.

Lemma make_envelope_services incl rs datas ign :
  services (make_envelope incl (rs, datas, ign))
  = map (fun k =>
           (service_name k,
            Bucket (sort_records (filter (in_service k) rs))
              (sort_records (filter (in_service k) datas))))
      SERVICES_KEYS.
Proof.
  unfold make_envelope. cbn [services]. apply map_ext.
  intros k. now rewrite organize_by_service_bucket.
Qed.

(** In a bucket a record named b never stands before a record of its type
    named a. *)
Lemma sorted_records_a_before_b (l l1 l2 l3 : list record) (x y : record) :
  StronglySorted record_le l ->
  l = l1 ++ x :: l2 ++ y :: l3 ->
  r_type x = r_type y -> r_name x = "b" -> r_name y = "a" -> False.
Proof.
  intros Hs -> Ht Hx Hy.
  apply (sorted_lt_before tuple_ltb record_key) in Hs.
  unfold record_key in Hs. rewrite Ht, Hx, Hy in Hs. simpl in Hs.
  now rewrite String.eqb_refl in Hs.
Qed.

(** C9. The services of the envelope are the five service keys in their
    alphabetical order, each with a bucket even when it is empty; the two
    sequences of each bucket hold the records of the service and are sorted
    by (type, name, address), so that of two records of one type named b and
    a the one named a stands first. *)
Theorem organize_by_service_sorted_buckets
    (include_ignored : bool) (rs datas : list record) (ign : list ignored_item) :
  let env := make_envelope include_ignored (rs, datas, ign) in
  map fst (services env) = ["ec2"; "iam"; "rds"; "s3"; "vpc"] /\
  map fst (organize_by_service rs datas) = [Ec2; Iam; Rds; S3; Vpc] /\
  (forall name b,
      In (name, b) (services env) ->
      exists k,
        name = service_name k /\ b = get_bucket k (organize_by_service rs datas) /\
        Permutation (resources b) (filter (in_service k) rs) /\
        Permutation (data_sources b) (filter (in_service k) datas) /\
        StronglySorted record_le (resources b) /\
        StronglySorted record_le (data_sources b) /\
        (forall l l1 x l2 y l3,
            l = resources b \/ l = data_sources b ->
            l = l1 ++ x :: l2 ++ y :: l3 ->
            r_type x = r_type y -> r_name x = "b" -> r_name y = "a" -> False)).
Proof.
  intros env. split; [reflexivity|]. split; [apply organize_by_service_keys|].
  intros name b Hin. unfold env in Hin. rewrite make_envelope_services in Hin.
  apply in_map_iff in Hin as (k & E & _). injection E as <- <-.
  exists k. rewrite organize_by_service_bucket. cbn [resources data_sources].
  repeat split; try apply sort_records_perm; try apply sort_records_sorted.
  intros l l1 x l2 y l3 [-> | ->];
    apply sorted_records_a_before_b, sort_records_sorted.
Qed.

Lemma organize_by_service_sorted_buckets_witness :
  let env := make_envelope false ([rec_named "b"; rec_named "a"], [], []) in
  In ("ec2", Bucket [rec_named "a"; rec_named "b"] []) (services env) /\
  StronglySorted record_le [rec_named "a"; rec_named "b"].
Proof.
  intros env.
  assert (Hin : In ("ec2", Bucket [rec_named "a"; rec_named "b"] []) (services env))
    by (left; reflexivity).
  split; [exact Hin|].
  destruct (organize_by_service_sorted_buckets false
              [rec_named "b"; rec_named "a"] [] []) as (_ & _ & H).
  destruct (H _ _ Hin) as (k & _ & _ & _ & _ & Hs & _). exact Hs.
Defined.

(** ** Aggregation over the units *)

Lemma add_unit_app include_ignored path parsed (rs ds : list record)
    (ig : list ignored_item) :
  add_unit include_ignored path parsed (rs, ds, ig)
  = let u := unit_output include_ignored path parsed in
    (rs ++ fst (fst u), ds ++ snd (fst u), ig ++ snd u).
Proof.
  unfold unit_output, add_unit. destruct parsed as [doc|msg].
  - now destruct (collect_from_doc doc include_ignored) as [[a b] c].
  - destruct include_ignored; simpl; now rewrite ?app_nil_r.
Qed.

Lemma fold_add_unit {U} (include_ignored : bool) (path : U -> string)
    (parse : U -> parse_result) (units : list U) : forall rs ds ig,
  fold_left (fun st u => add_unit include_ignored (path u) (parse u) st)
    units (rs, ds, ig)
  = (rs ++ flat_map (fun u => fst (fst (unit_output include_ignored (path u) (parse u)))) units,
     ds ++ flat_map (fun u => snd (fst (unit_output include_ignored (path u) (parse u)))) units,
     ig ++ flat_map (fun u => snd (unit_output include_ignored (path u) (parse u))) units).
Proof.
  induction units as [|u t IH]; intros rs ds ig; cbn [fold_left flat_map].
  - now rewrite !app_nil_r.
  - rewrite add_unit_app. cbv zeta. rewrite IH. now rewrite <- !app_assoc.
Qed.

Lemma Permutation_filter {A} (p : A -> bool) (l1 l2 : list A) :
  Permutation l1 l2 -> Permutation (filter p l1) (filter p l2).
Proof.
  induction 1 as [|x l1 l2 _ IH|x y l|l1 l2 l3 _ IH1 _ IH2]; simpl.
  - constructor.
  - destruct (p x); [now constructor | exact IH].
  - destruct (p x), (p y); try reflexivity. apply perm_swap.
  - now transitivity (filter p l2).
Qed.

Lemma keys_determine_perm {A} (key : A -> list string) (l1 l2 : list A) :
  Permutation l1 l2 -> keys_determine key l1 -> keys_determine key l2.
Proof.
  intros Hp H x y Hx Hy.
  apply H; apply (Permutation_in _ (Permutation_sym Hp)); assumption.
Qed.

Lemma sort_records_perm_eq (l1 l2 : list record) :
  Permutation l1 l2 -> keys_determine record_key (sort_records l1) ->
  sort_records l2 = sort_records l1.
Proof.
  intros Hp H. symmetry.
  apply sorted_perm_eq;
    [apply tuple_ltb_irrefl | apply tuple_ltb_trans | apply tuple_ltb_tricho
    | exact Hp |].
  exact (keys_determine_perm _ _ _ (sort_records_perm l1) H).
Qed.

Lemma sort_ignored_perm_eq (l1 l2 : list ignored_item) :
  Permutation l1 l2 -> keys_determine ignored_key (sort_ignored l1) ->
  sort_ignored l2 = sort_ignored l1.
Proof.
  intros Hp H. symmetry.
  apply sorted_perm_eq;
    [apply tuple_ltb_irrefl | apply tuple_ltb_trans | apply tuple_ltb_tricho
    | exact Hp |].
  exact (keys_determine_perm _ _ _ (sorted_perm tuple_ltb ignored_key l1) H).
Qed.

(** Envelopes of permuted accumulations. *)
Lemma make_envelope_perm include_ignored rs1 ds1 ig1 rs2 ds2 ig2 :
  Permutation rs1 rs2 -> Permutation ds1 ds2 -> Permutation ig1 ig2 ->
  unambiguous (make_envelope include_ignored (rs1, ds1, ig1)) ->
  make_envelope include_ignored (rs2, ds2, ig2)
  = make_envelope include_ignored (rs1, ds1, ig1).
Proof.
  intros Hr Hd Hi [Hs Hg].
  assert (Hsv : services (make_envelope include_ignored (rs2, ds2, ig2))
                = services (make_envelope include_ignored (rs1, ds1, ig1))).
  { rewrite make_envelope_services in Hs. rewrite !make_envelope_services.
    apply map_ext_in. intros k Hk.
    specialize (Hs (service_name k) _ (in_map _ _ _ Hk)) as [H1 H2].
    cbn [resources data_sources] in H1, H2.
    rewrite (sort_records_perm_eq _ _ (Permutation_filter _ _ _ Hr) H1).
    now rewrite (sort_records_perm_eq _ _ (Permutation_filter _ _ _ Hd) H2). }
  assert (Hig : ignored (make_envelope include_ignored (rs2, ds2, ig2))
                = ignored (make_envelope include_ignored (rs1, ds1, ig1))).
  { unfold make_envelope in *. cbn [ignored] in *. destruct include_ignored;
      [|reflexivity].
    f_equal. apply (sort_ignored_perm_eq _ _ Hi), Hg. reflexivity. }
  unfold make_envelope in *. cbn [services ignored] in *. now rewrite Hsv, Hig.
Qed.

Lemma walked_paths (join : string -> string -> string)
    (entries : list (string * list string)) :
  flat_map
    (fun entry =>
       let (root, files) := entry : string * list string in
       map (join root) (filter (fun fn => endswith fn ".tf") files))
    entries
  = map (fun rf => join (fst rf) (snd rf))
      (filter (fun rf => endswith (snd rf) ".tf") (walked_files entries)).
Proof.
  unfold walked_files. induction entries as [|[root files] t IH]; simpl;
    [reflexivity|].
  rewrite IH, filter_app, map_app. f_equal.
  induction files as [|fn l IHl]; simpl; [reflexivity|].
  destruct (endswith fn ".tf"); simpl; congruence.
Qed.

Lemma gather_tf_files_perm isfile isdir walk1 walk2 join input_path :
  Permutation (walked_files (walk1 input_path)) (walked_files (walk2 input_path)) ->
  gather_tf_files isfile isdir walk2 join input_path
  = gather_tf_files isfile isdir walk1 join input_path.
Proof.
  intros Hp. unfold gather_tf_files.
  destruct (isfile input_path && endswith input_path ".tf"); [reflexivity|].
  destruct (isdir input_path); [|reflexivity].
  rewrite !walked_paths. symmetry.
  apply sorted_perm_eq;
    [apply string_ltb_irrefl | apply string_ltb_trans | apply string_ltb_tricho
    | | auto].
  apply Permutation_map, Permutation_filter, Hp.
Qed.

(** C1 (as amended).  The envelope does not depend on the order of the
    units as long as the sort keys tell its entries apart: when the
    envelope of one ordering of the files of a request is unambiguous, every
    other ordering of these files gives the same envelope; and the
    transformation of a path gives the same envelope whatever the order in
    which the walk lists the files.  Equal envelopes have equal
    serialisations. *)
Theorem transform_order_insensitive :
  (forall (parse : string -> parse_result) (files1 files2 : list tf_file)
          (include_ignored : bool),
      Permutation files1 files2 ->
      unambiguous (transform_from_prompt parse (Request files1 include_ignored)) ->
      transform_from_prompt parse (Request files2 include_ignored)
      = transform_from_prompt parse (Request files1 include_ignored)) /\
  (forall (parse : string -> parse_result) (isfile isdir : string -> bool)
          (walk1 walk2 : string -> list (string * list string))
          (join : string -> string -> string)
          (input_path : string) (include_ignored : bool),
      Permutation (walked_files (walk1 input_path))
        (walked_files (walk2 input_path)) ->
      transform_from_path parse isfile isdir walk2 join input_path include_ignored
      = transform_from_path parse isfile isdir walk1 join input_path include_ignored).
Proof.
  split.
  - intros parse files1 files2 incl Hp. unfold transform_from_prompt.
    cbn [req_files req_include_ignored].
    rewrite !(fold_add_unit incl
                (fun f => match f_path f with
                          | Some p => if truthy p then p else "<memory>"
                          | None => "<memory>"
                          end)
                (fun f => parse match f_content f with Some c => c | None => "" end)).
    cbn [app]. apply make_envelope_perm; now apply Permutation_flat_map.
  - intros parse isfile isdir walk1 walk2 join p incl Hp.
    unfold transform_from_path. now rewrite (gather_tf_files_perm _ _ _ _ _ _ Hp).
Qed.

(** The envelope depends on the order of the two files: the records have
    the same (type, name, address) and the stable sort keeps them in the
    order of arrival. *)
Lemma transform_from_prompt_order_sensitive :
  let fa := TfFile (Some "a.tf") (Some "A") in
  let fb := TfFile (Some "b.tf") (Some "B") in
  Permutation [fa; fb] [fb; fa] /\
  transform_from_prompt two_sources (Request [fa; fb] false)
  <> transform_from_prompt two_sources (Request [fb; fa] false).
Proof.
  intros fa fb. split; [apply perm_swap|].
  intros H. apply (f_equal services) in H. vm_compute in H. discriminate H.
Qed.

Lemma transform_order_insensitive_witness :
  let fa := TfFile (Some "a.tf") (Some "A") in
  let fb := TfFile (Some "b.tf") (Some "B") in
  let fc := TfFile None (Some "resource {") in
  let walk1 := fun _ : string => [("d", ["b.tf"; "notes.txt"; "a.tf"])] in
  let walk2 := fun _ : string => [("d", ["a.tf"; "b.tf"; "notes.txt"])] in
  let everything := fun _ : string => true in
  let nothing := fun _ : string => false in
  (Permutation [fb; fc; fa] [fa; fb; fc] /\
   unambiguous (transform_from_prompt three_sources (Request [fb; fc; fa] true)) /\
   transform_from_prompt three_sources (Request [fa; fb; fc] true)
   = transform_from_prompt three_sources (Request [fb; fc; fa] true)) /\
  (Permutation (walked_files (walk1 "d")) (walked_files (walk2 "d")) /\
   transform_from_path disk_sources nothing everything walk2 slash_join "d" true
   = transform_from_path disk_sources nothing everything walk1 slash_join "d" true /\
   gather_tf_files nothing everything walk1 slash_join "d" = ["d/a.tf"; "d/b.tf"]).
Proof.
  intros fa fb fc walk1 walk2 everything nothing.
  assert (Hw : Permutation (walked_files (walk1 "d")) (walked_files (walk2 "d"))).
  { apply Permutation_sym.
    apply (Permutation_cons_app [("d", "b.tf"); ("d", "notes.txt")] [] ("d", "a.tf")).
    rewrite app_nil_r. reflexivity. }
  split;
    [|split; [exact Hw|]; split; [|reflexivity];
      exact (proj2 transform_order_insensitive disk_sources nothing everything
               walk1 walk2 slash_join "d" true Hw)].
  assert (Hp : Permutation [fb; fc; fa] [fa; fb; fc]).
  { apply Permutation_sym. apply (Permutation_cons_app [fb; fc] [] fa).
    rewrite app_nil_r. reflexivity. }
  assert (Hu : unambiguous
                 (transform_from_prompt three_sources (Request [fb; fc; fa] true))).
  { split.
    - intros name b Hin. vm_compute in Hin.
      repeat (destruct Hin as [E|Hin];
              [injection E as <- <-; split; decide_keys|]).
      destruct Hin.
    - intros ig Hig. vm_compute in Hig. injection Hig as <-. decide_keys. }
  split; [exact Hp|]. split; [exact Hu|].
  exact (proj1 transform_order_insensitive three_sources _ _ true Hp Hu).
Defined.

(** * Further properties *)

(** ** Lookups in dicts *)

Lemma dict_get_In (k : string) (v : value) (d : dict) :
  dict_get k d = Some v -> In (k, v) d.
Proof.
  induction d as [|[a w] t IH]; simpl; [discriminate|].
  destruct (String.eqb_spec k a) as [->|Hne].
  - intros H. injection H as ->. now left.
  - intros H. right. auto.
Qed.

Lemma In_dict_get (k : string) (v : value) (d : dict) :
  NoDup (keys d) -> In (k, v) d -> dict_get k d = Some v.
Proof.
  induction d as [|[a w] t IH]; simpl; [tauto|].
  intros Hnd [H|H]; inversion Hnd as [|? ? Ha Ht]; subst.
  - injection H as -> ->. now rewrite String.eqb_refl.
  - destruct (String.eqb_spec k a) as [->|Hne]; [|auto].
    destruct Ha. change a with (fst (a, v)). now apply in_map.
Qed.

Lemma dict_get_None (k : string) (d : dict) :
  dict_get k d = None <-> ~ In k (keys d).
Proof.
  induction d as [|[a w] t IH]; simpl; [tauto|].
  destruct (String.eqb_spec k a) as [->|Hne].
  - split; [discriminate | intros H; destruct H; now left].
  - rewrite IH. intuition congruence.
Qed.

(** With distinct keys the lookups do not depend on the order of the
    items. *)
Lemma dict_get_perm (k : string) (d1 d2 : dict) :
  Permutation d1 d2 -> NoDup (keys d1) -> dict_get k d1 = dict_get k d2.
Proof.
  intros Hp Hnd.
  assert (Hnd2 : NoDup (keys d2))
    by (eapply Permutation_NoDup; [apply Permutation_map, Hp | exact Hnd]).
  destruct (dict_get k d1) as [v|] eqn:E1.
  - symmetry. apply In_dict_get; [exact Hnd2|].
    apply (Permutation_in _ Hp). now apply dict_get_In.
  - symmetry. apply dict_get_None. apply dict_get_None in E1.
    intros H. apply E1. apply (Permutation_in _ (Permutation_sym (Permutation_map fst Hp))).
    exact H.
Qed.

Lemma dict_get_filter_key (p : string -> bool) (k : string) (d : dict) :
  dict_get k (filter (fun kv => p (fst kv)) d)
  = if p k then dict_get k d else None.
Proof.
  induction d as [|[a w] t IH]; simpl; [now destruct (p k)|].
  destruct (p a) eqn:Ha; simpl.
  - destruct (String.eqb_spec k a) as [->|Hne]; [now rewrite Ha | exact IH].
  - rewrite IH. destruct (String.eqb_spec k a) as [->|Hne]; [now rewrite Ha|].
    reflexivity.
Qed.

Lemma dict_get_map_value (f : value -> value) (k : string) (d : dict) :
  dict_get k (map (fun kv => (fst kv, f (snd kv))) d)
  = option_map f (dict_get k d).
Proof.
  induction d as [|[a w] t IH]; simpl; [reflexivity|].
  destruct (String.eqb k a); [reflexivity | exact IH].
Qed.

Lemma keys_map_value (f : value -> value) (d : dict) :
  keys (map (fun kv => (fst kv, f (snd kv))) d) = keys d.
Proof. unfold keys. rewrite map_map. reflexivity. Qed.

Lemma NoDup_keys_filter (p : string * value -> bool) (d : dict) :
  NoDup (keys d) -> NoDup (keys (filter p d)).
Proof.
  unfold keys. induction d as [|x t IH]; simpl; [auto|].
  intros H. inversion H as [|? ? Hx Ht]; subst.
  destruct (p x); simpl; [|auto]. constructor; [|auto].
  intros Hin. apply Hx. apply in_map_iff in Hin as (y & <- & Hy).
  apply in_map. apply filter_In in Hy. tauto.
Qed.

Lemma NoDup_keys_sort_items (d : dict) :
  NoDup (keys d) -> NoDup (keys (sort_items d)).
Proof.
  intros H. eapply Permutation_NoDup; [|exact H].
  apply Permutation_map, Permutation_sym, sort_items_perm.
Qed.

(** ** Normal forms *)

Lemma ascending_sorted (d : dict) :
  StronglySorted lt_kv d -> ascending (keys d) = true.
Proof.
  induction 1 as [|x t Ht IH Hx]; simpl; [reflexivity|].
  destruct t as [|y t']; simpl; [reflexivity|].
  inversion Hx as [|? ? Hxy _]; subst. unfold lt_kv in Hxy.
  simpl in IH. now rewrite Hxy, IH.
Qed.

Lemma sorted_ascending (d : dict) :
  ascending (keys d) = true -> StronglySorted lt_kv d.
Proof.
  induction d as [|x t IH]; simpl; [constructor|].
  destruct t as [|y t']; [repeat constructor|].
  intros H. apply andb_true_iff in H as [Hxy Ht]. specialize (IH Ht).
  constructor; [exact IH|]. constructor; [exact Hxy|].
  inversion IH as [|? ? _ Hy]; subst.
  eapply Forall_impl; [|exact Hy]. intros z Hz. unfold lt_kv in *.
  eapply string_ltb_trans; eassumption.
Qed.

(** X1. Whatever it is given, the normaliser returns a value in normal
    form: at every depth the keys of a mapping ascend strictly (so they are
    distinct), no provisioner or connection key is left, and no string is
    left that the pattern would tag. *)
Theorem normalize_value_normal (v : value) : normal (normalize_value v) = true.
Proof.
  induction v as [| b | z | r | s | l IH | kvs IH] using value_ind'; try reflexivity.
  - simpl. destruct (EXPR_RE_match s) as [inner|] eqn:E.
    + unfold expr_tag. simpl.
      now rewrite (EXPR_RE_match_needs_rbrace _ (EXPR_RE_match_no_rbrace _ _ E)).
    + simpl. now rewrite E.
  - simpl. induction IH as [|x t Hx _ IHt]; simpl; [reflexivity|].
    now rewrite Hx, IHt.
  - destruct (normalize_value_dict_shape kvs) as (out & -> & Hs & Hout).
    simpl. change (map fst out) with (keys out). rewrite (ascending_sorted _ Hs).
    simpl. apply forallb_forall. intros x Hx.
    destruct (Hout x Hx) as (Hk & kv & Hkv & ->).
    unfold kept in Hk. simpl in *. rewrite Hk. simpl.
    rewrite Forall_forall in IH. exact (IH kv Hkv).
Qed.

(** X2. A value in normal form is a fixed point of the normaliser: it is
    returned as it is, with its keys in the order they have. *)
Theorem normalize_value_fixed_point (v : value) :
  normal v = true -> normalize_value v = v.
Proof.
  induction v as [| b | z | r | s | l IH | kvs IH] using value_ind'; try reflexivity.
  - simpl. now destruct (EXPR_RE_match s).
  - simpl. intros H. f_equal. rewrite forallb_forall in H.
    rewrite <- (map_id l) at 2. apply map_ext_in. intros x Hx.
    rewrite Forall_forall in IH. apply IH; auto.
  - intros H. simpl in H. apply andb_true_iff in H as [Ha Hv].
    rewrite forallb_forall in Hv. rewrite Forall_forall in IH.
    apply normalize_value_dict_fixed; [now apply sorted_ascending|].
    intros x Hx. specialize (Hv x Hx). apply andb_true_iff in Hv as [Hk Hn].
    split; [exact Hk|]. unfold normalize_item. rewrite (IH x Hx Hn).
    now destruct x.
Qed.

Lemma normalize_value_fixed_point_witness :
  let v := VDict [("a", VList [VStr "x-${y}"; VNum 1]);
                  ("b", VDict [("$expr", VStr "var.x")])] in
  normal v = true /\ normalize_value v = v.
Proof.
  intros v. split; [reflexivity|].
  exact (normalize_value_fixed_point v eq_refl).
Defined.

Lemma NoDup_keys_normalized (d : dict) :
  NoDup (keys d) ->
  NoDup (keys (filter (fun kv => negb (dropped_key (fst kv)))
                 (sort_items (map normalize_item d)))).
Proof.
  intros H. apply NoDup_keys_filter, NoDup_keys_sort_items.
  unfold normalize_item. now rewrite keys_map_value.
Qed.

(** X3. Normalising a mapping keeps every key but the provisioning keys and
    binds it to the normalised value: a lookup in the result is the
    lookup in the input, normalised, and nothing for a provisioner or
    connection key. *)
Theorem normalize_value_lookup (d : dict) (k : string) :
  NoDup (keys d) ->
  exists out,
    normalize_value (VDict d) = VDict out /\
    dict_get k out
    = if dropped_key k then None else option_map normalize_value (dict_get k d).
Proof.
  intros Hnd.
  exists (OrderedDict (filter (fun kv => negb (dropped_key (fst kv)))
                         (sort_items (map normalize_item d)))).
  split; [reflexivity|].
  rewrite (OrderedDict_NoDup _ (NoDup_keys_normalized d Hnd)).
  rewrite (dict_get_filter_key (fun a => negb (dropped_key a))).
  destruct (dropped_key k); [reflexivity|]. simpl.
  rewrite (dict_get_perm k _ _ (sort_items_perm _)).
  - apply dict_get_map_value.
  - apply NoDup_keys_sort_items. unfold normalize_item.
    now rewrite keys_map_value.
Qed.

Lemma normalize_value_lookup_witness :
  let d := [("tags", VDict [("Name", VStr "${var.name}")]);
            ("connection", VNum 1); ("ami", VStr "ami-1")] in
  NoDup (keys d) /\
  exists out,
    normalize_value (VDict d) = VDict out /\
    dict_get "tags" out = Some (VDict [("Name", VDict [("$expr", VStr "var.name")])]).
Proof.
  intros d.
  assert (Hnd : NoDup (keys d)).
  { repeat constructor; simpl; intuition discriminate. }
  split; [exact Hnd|].
  destruct (normalize_value_lookup d "tags" Hnd) as (out & E & H).
  exists out. split; [exact E | exact H].
Defined.

Lemma NoDup_keys_determine (d : dict) :
  NoDup (keys d) ->
  forall x y, In x d -> In y d -> kv_key x = kv_key y -> x = y.
Proof.
  intros Hnd [a v] [b w] Hx Hy E. unfold kv_key in E. simpl in E. subst b.
  f_equal. apply (In_dict_get _ _ _ Hnd) in Hx, Hy. congruence.
Qed.

Lemma sort_items_perm_eq (d1 d2 : dict) :
  Permutation d1 d2 -> NoDup (keys d1) -> sort_items d1 = sort_items d2.
Proof.
  intros Hp Hnd. apply sorted_perm_eq;
    [apply string_ltb_irrefl | apply string_ltb_trans | apply string_ltb_tricho
    | exact Hp | now apply NoDup_keys_determine].
Qed.

(** X4. The normal form of a mapping does not depend on the order in which
    its keys were inserted: two mappings with the same items (and distinct
    keys, as a dict has) normalise to the same value. *)
Theorem normalize_value_insertion_order (d1 d2 : dict) :
  Permutation d1 d2 -> NoDup (keys d1) ->
  normalize_value (VDict d1) = normalize_value (VDict d2).
Proof.
  intros Hp Hnd. simpl. do 3 f_equal.
  apply sort_items_perm_eq.
  - apply Permutation_map, Hp.
  - change (NoDup (keys (map normalize_item d1))). unfold normalize_item.
    now rewrite keys_map_value.
Qed.

Lemma normalize_value_insertion_order_witness :
  let d1 := [("b", VStr "${x}"); ("a", VNum 1)] in
  let d2 := [("a", VNum 1); ("b", VStr "${x}")] in
  Permutation d1 d2 /\ NoDup (keys d1) /\
  normalize_value (VDict d1) = normalize_value (VDict d2).
Proof.
  intros d1 d2.
  assert (Hp : Permutation d1 d2) by apply perm_swap.
  assert (Hnd : NoDup (keys d1)).
  { repeat constructor; simpl; intuition discriminate. }
  split; [exact Hp|]. split; [exact Hnd|].
  exact (normalize_value_insertion_order d1 d2 Hp Hnd).
Defined.

(** ** The metadata extractor and the rest of the attributes *)

Lemma is_meta_key_In (k : string) : is_meta_key k = true <-> In k META_KEYS.
Proof. apply mem_In. Qed.

Lemma filter_twice {A} (p q : A -> bool) (l : list A) :
  filter p (filter q l) = filter (fun x => q x && p x) l.
Proof.
  induction l as [|x t IH]; simpl; [reflexivity|].
  destruct (q x); simpl; [|exact IH]. destruct (p x); congruence.
Qed.

(** The mapping that the extractor leaves: the items whose key is none of
    the four, in their order. *)
Lemma extract_meta_rest (attrs : dict) :
  snd (extract_meta attrs) = filter (fun kv => negb (is_meta_key (fst kv))) attrs.
Proof.
  rewrite extract_meta_attrs. unfold dict_remove. rewrite !filter_twice.
  apply filter_ext. intros [a v]. unfold is_meta_key, mem, META_KEYS.
  cbn [existsb fst]. rewrite !(String.eqb_sym a).
  destruct (String.eqb "count" a), (String.eqb "for_each" a),
    (String.eqb "depends_on" a), (String.eqb "provider" a); reflexivity.
Qed.

(** The metadata as a function of four lookups. *)
Lemma extract_meta_lookups (attrs : dict) :
  fst (extract_meta attrs)
  = Meta
      (match dict_get "count" attrs with
       | Some v => if is_none v then VNull else _to_expr_or_val v
       | None => VNull
       end)
      (match dict_get "for_each" attrs with
       | Some v => if is_none v then VNull else _to_expr_or_val v
       | None => VNull
       end)
      (match dict_get "depends_on" attrs with
       | None | Some VNull => []
       | Some (VList l) => map py_str l
       | Some v => [py_str v]
       end)
      (match dict_get "provider" attrs with
       | Some (VStr s) => Some s
       | _ => None
       end).
Proof.
  unfold extract_meta, dict_pop. cbv zeta. simpl fst.
  rewrite !dict_get_remove_ne by discriminate.
  destruct (dict_get "count" attrs) as [c|], (dict_get "for_each" attrs) as [f|],
    (dict_get "depends_on" attrs) as [[]|], (dict_get "provider" attrs) as [[]|];
    reflexivity.
Qed.

Lemma filter_id {A} (p : A -> bool) (l : list A) :
  (forall x, In x l -> p x = true) -> filter p l = l.
Proof.
  induction l as [|x t IH]; simpl; [reflexivity|]. intros H.
  rewrite (H x (or_introl eq_refl)). f_equal. apply IH. auto.
Qed.

(** X5. The extractor removes the four metadata keys and nothing else: the
    other items stay, in their order, with their lookups unchanged, the
    four keys are no longer bound, and a second extraction finds no
    metadata and changes nothing. *)
Theorem extract_meta_frame (attrs : dict) :
  let rest := snd (extract_meta attrs) in
  rest = filter (fun kv => negb (is_meta_key (fst kv))) attrs /\
  (forall k, dict_get k rest = if is_meta_key k then None else dict_get k attrs) /\
  extract_meta rest = (Meta VNull VNull [] None, rest).
Proof.
  intros rest. unfold rest. rewrite extract_meta_rest.
  split; [reflexivity|].
  assert (Hget : forall k,
             dict_get k (filter (fun kv => negb (is_meta_key (fst kv))) attrs)
             = if is_meta_key k then None else dict_get k attrs).
  { intros k. rewrite (dict_get_filter_key (fun a => negb (is_meta_key a))).
    now destruct (is_meta_key k). }
  split; [exact Hget|].
  rewrite (surjective_pairing (extract_meta _)). f_equal.
  - rewrite extract_meta_lookups, !Hget. reflexivity.
  - rewrite extract_meta_rest. apply filter_id.
    intros x Hx. apply filter_In in Hx. tauto.
Qed.

Example extract_meta_frame_ex :
  snd (extract_meta [("z", VNum 1); ("count", VNum 2); ("a", VNull);
                     ("provider", VStr "aws.w"); ("provisioner", VList [])])
  = [("z", VNum 1); ("a", VNull); ("provisioner", VList [])].
Proof. reflexivity. Qed.

(** ** Accepted records *)

(** Every field of an accepted record, from the type, the name and the
    body. *)
Lemma make_record_Ok_fields (kind rtype name : string) (d : dict) (rec : record) :
  make_record kind rtype name (VDict d) = Ok rec ->
  let m := fst (extract_meta d) in
  service_for_type rtype = Some (r_service rec) /\
  r_address rec = rtype +++ "." +++ name /\
  r_type rec = rtype /\ r_name rec = name /\
  r_mode rec = (if String.eqb kind "data" then "data" else "resource") /\
  r_provider_alias rec
  = match m_provider_alias m with
    | Some a => if truthy a then Some a else None
    | None => None
    end /\
  r_depends_on rec = m_depends m /\
  r_count rec = m_count m /\ r_for_each rec = m_for_each m /\
  r_attributes rec = attributes_of d /\
  (forall a, m_provider_alias m = Some a -> truthy a = true ->
             startswith a "aws" = true).
Proof.
  unfold make_record, attributes_of.
  destruct (startswith rtype "aws_"); [|discriminate].
  destruct (service_for_type rtype) as [svc|]; [|discriminate].
  simpl negb. cbv iota.
  destruct (extract_meta d) as [m attrs'] eqn:E. simpl fst. simpl snd.
  destruct (match m_provider_alias m with Some _ => _ | None => _ end) eqn:Hc;
    [discriminate|].
  intros H. injection H as <-. simpl. repeat split.
  intros a Ha Ht. rewrite Ha, Ht in Hc. simpl in Hc.
  now apply negb_false_iff in Hc.
Qed.

Lemma NoDup_keys_rest (d : dict) :
  NoDup (keys d) -> NoDup (keys (map normalize_item (snd (extract_meta d)))).
Proof.
  intros H. unfold normalize_item. rewrite keys_map_value, extract_meta_rest.
  now apply NoDup_keys_filter.
Qed.

(** X6. The attributes of an accepted record bind every key of the body
    that is not a metadata key to the normalised value of the body, and
    bind no metadata key; a top-level key is never dropped for another
    reason. *)
Theorem make_record_attribute_lookup
    (kind rtype name : string) (d : dict) (rec : record) (k : string) :
  make_record kind rtype name (VDict d) = Ok rec ->
  NoDup (keys d) ->
  dict_get k (r_attributes rec)
  = if is_meta_key k then None else option_map normalize_value (dict_get k d).
Proof.
  intros H Hnd.
  apply make_record_Ok_fields in H as (_ & _ & _ & _ & _ & _ & _ & _ & _ & -> & _).
  unfold attributes_of. pose proof (NoDup_keys_rest d Hnd) as Hr.
  rewrite OrderedDict_NoDup
    by (eapply Permutation_NoDup; [|exact Hr];
        apply Permutation_map, Permutation_sym, sorted_perm).
  rewrite (dict_get_perm k _ _ (sorted_perm String.ltb kv_key _))
    by (eapply Permutation_NoDup; [|exact Hr];
        apply Permutation_map, Permutation_sym, sorted_perm).
  unfold normalize_item. rewrite dict_get_map_value, extract_meta_rest.
  rewrite (dict_get_filter_key (fun a => negb (is_meta_key a))).
  now destruct (is_meta_key k).
Qed.

Lemma make_record_attribute_lookup_witness :
  let d := [("tags", VList [VStr "${var.t}"]); ("count", VNum 3);
            ("provisioner", VNum 0)] in
  let rec :=
    {| r_address := "aws_s3_bucket.logs"; r_type := "aws_s3_bucket";
       r_name := "logs"; r_service := S3; r_mode := "resource";
       r_provider_alias := None; r_depends_on := [];
       r_count := VNum 3; r_for_each := VNull;
       r_attributes := [("provisioner", VNum 0);
                        ("tags", VList [VDict [("$expr", VStr "var.t")]])] |} in
  make_record "resource" "aws_s3_bucket" "logs" (VDict d) = Ok rec /\
  NoDup (keys d) /\
  dict_get "tags" (r_attributes rec)
  = Some (VList [VDict [("$expr", VStr "var.t")]]) /\
  dict_get "count" (r_attributes rec) = None.
Proof.
  intros d rec.
  assert (H : make_record "resource" "aws_s3_bucket" "logs" (VDict d) = Ok rec)
    by reflexivity.
  assert (Hnd : NoDup (keys d)).
  { repeat constructor; simpl; intuition discriminate. }
  split; [exact H|]. split; [exact Hnd|]. split.
  - exact (make_record_attribute_lookup _ _ _ d rec "tags" H Hnd).
  - exact (make_record_attribute_lookup _ _ _ d rec "count" H Hnd).
Defined.

(** X7. The keys of the attributes of an accepted record ascend strictly:
    they are sorted by code point and no key occurs twice. *)
Theorem make_record_attributes_ascending
    (kind rtype name : string) (body : value) (rec : record) :
  make_record kind rtype name body = Ok rec ->
  ascending (keys (r_attributes rec)) = true.
Proof.
  intros H. apply make_record_Ok_inv in H as (attrs & _ & _ & _ & _ & _ & ->).
  apply ascending_sorted. unfold attributes_of.
  apply OrderedDict_sorted. apply sort_items_sorted.
Qed.

Lemma make_record_attributes_ascending_witness :
  let body := VDict [("z", VNum 1); ("Z", VNum 2); ("a", VNum 3)] in
  let rec :=
    {| r_address := "aws_vpc.main"; r_type := "aws_vpc"; r_name := "main";
       r_service := Vpc; r_mode := "resource"; r_provider_alias := None;
       r_depends_on := []; r_count := VNull; r_for_each := VNull;
       r_attributes := [("Z", VNum 2); ("a", VNum 3); ("z", VNum 1)] |} in
  make_record "resource" "aws_vpc" "main" body = Ok rec /\
  ascending (keys (r_attributes rec)) = true.
Proof.
  intros body rec.
  assert (H : make_record "resource" "aws_vpc" "main" body = Ok rec)
    by reflexivity.
  split; [exact H|].
  exact (make_record_attributes_ascending _ _ _ _ _ H).
Defined.

(** X8. The alias of an accepted record is either null or a string that is
    not empty and starts with aws: it is the provider of the body when that
    is such a string, and null when the body has no provider, a provider
    that is not a string, or an empty one. *)
Theorem make_record_alias (kind rtype name : string) (d : dict) (rec : record) :
  make_record kind rtype name (VDict d) = Ok rec ->
  (forall a, r_provider_alias rec = Some a <->
             dict_get "provider" d = Some (VStr a) /\ a <> "") /\
  (forall a, r_provider_alias rec = Some a -> startswith a "aws" = true).
Proof.
  intros H.
  apply make_record_Ok_fields in H as (_ & _ & _ & _ & _ & Ha & _ & _ & _ & _ & Hc).
  cbv zeta in Ha, Hc. rewrite extract_meta_provider_alias in Ha, Hc.
  assert (Hiff : forall a, r_provider_alias rec = Some a <->
                           dict_get "provider" d = Some (VStr a) /\ a <> "").
  { intros a. rewrite Ha. unfold truthy.
    destruct (dict_get "provider" d) as [[| | | |s| |]|];
      try (split; [discriminate | intros [E _]; discriminate E]).
    destruct (String.eqb_spec s "") as [->|Hne]; simpl.
    - split; [discriminate | intros [E Hn]; congruence].
    - split; [intros E; injection E as ->; now split | intros [E _]; congruence]. }
  split; [exact Hiff|].
  intros a Hr. apply Hiff in Hr as [Hp Hne]. rewrite Hp in Hc.
  apply (Hc a eq_refl). unfold truthy.
  now destruct (String.eqb_spec a "").
Qed.

Lemma make_record_alias_witness :
  let d := [("provider", VStr "aws.west"); ("bucket", VStr "b")] in
  let rec :=
    {| r_address := "aws_s3_bucket.b"; r_type := "aws_s3_bucket"; r_name := "b";
       r_service := S3; r_mode := "data"; r_provider_alias := Some "aws.west";
       r_depends_on := []; r_count := VNull; r_for_each := VNull;
       r_attributes := [("bucket", VStr "b")] |} in
  make_record "data" "aws_s3_bucket" "b" (VDict d) = Ok rec /\
  startswith "aws.west" "aws" = true.
Proof.
  intros d rec.
  assert (H : make_record "data" "aws_s3_bucket" "b" (VDict d) = Ok rec)
    by reflexivity.
  split; [exact H|].
  exact (proj2 (make_record_alias _ _ _ d rec H) "aws.west" eq_refl).
Defined.

Lemma extract_meta_perm (d1 d2 : dict) :
  Permutation d1 d2 -> NoDup (keys d1) ->
  fst (extract_meta d1) = fst (extract_meta d2) /\
  Permutation (snd (extract_meta d1)) (snd (extract_meta d2)).
Proof.
  intros Hp Hnd. split.
  - rewrite !extract_meta_lookups.
    now rewrite !(fun k => dict_get_perm k d1 d2 Hp Hnd).
  - rewrite !extract_meta_rest. now apply Permutation_filter.
Qed.

(** X9. The record built from a body does not depend on the order in which
    the body lists its attributes: two bodies with the same items (and
    distinct keys) give the same result, record or reason. *)
Theorem make_record_body_order
    (kind rtype name : string) (d1 d2 : dict) :
  Permutation d1 d2 -> NoDup (keys d1) ->
  make_record kind rtype name (VDict d1) = make_record kind rtype name (VDict d2).
Proof.
  intros Hp Hnd. destruct (extract_meta_perm d1 d2 Hp Hnd) as [Hm Hr].
  assert (Hs : sort_pairs (map normalize_item (snd (extract_meta d1)))
               = sort_pairs (map normalize_item (snd (extract_meta d2)))).
  { apply sort_items_perm_eq; [now apply Permutation_map|].
    now apply NoDup_keys_rest. }
  unfold make_record.
  destruct (startswith rtype "aws_"); [|reflexivity].
  destruct (service_for_type rtype) as [svc|]; [|reflexivity].
  simpl negb. cbv iota.
  destruct (extract_meta d1) as [m1 r1], (extract_meta d2) as [m2 r2].
  simpl in Hm, Hs. subst m2. unfold normalize_item in Hs. now rewrite Hs.
Qed.

Lemma make_record_body_order_witness :
  let d1 := [("count", VNum 2); ("ami", VStr "${var.ami}"); ("tags", VDict [])] in
  let d2 := [("tags", VDict []); ("count", VNum 2); ("ami", VStr "${var.ami}")] in
  Permutation d1 d2 /\ NoDup (keys d1) /\
  make_record "resource" "aws_instance" "web" (VDict d1)
  = make_record "resource" "aws_instance" "web" (VDict d2).
Proof.
  intros d1 d2.
  assert (Hp : Permutation d1 d2).
  { apply (Permutation_cons_app [("tags", VDict [])] [("ami", VStr "${var.ami}")]).
    apply perm_swap. }
  assert (Hnd : NoDup (keys d1)).
  { repeat constructor; simpl; intuition discriminate. }
  split; [exact Hp|]. split; [exact Hnd|].
  exact (make_record_body_order "resource" "aws_instance" "web" d1 d2 Hp Hnd).
Defined.

(** X10. The reason names the check that failed, and only that one: the
    builder answers [non_aws_provider] exactly for a type that does not
    start with the provider prefix, [unsupported_service] exactly for a
    type with the prefix that the table does not map, [malformed_block]
    exactly for a mapped type whose body is not a mapping, and
    [non_aws_provider_alias] exactly for a mapped type whose body binds
    the provider to a string that is not empty and does not start with
    aws. *)
Theorem make_record_reason_exact (kind rtype name : string) (body : value) :
  (make_record kind rtype name body = Err non_aws_provider <->
   startswith rtype "aws_" = false) /\
  (make_record kind rtype name body = Err unsupported_service <->
   startswith rtype "aws_" = true /\ service_for_type rtype = None) /\
  (make_record kind rtype name body = Err malformed_block <->
   service_for_type rtype <> None /\ is_dict body = false) /\
  (make_record kind rtype name body = Err non_aws_provider_alias <->
   service_for_type rtype <> None /\
   exists d a, body = VDict d /\ dict_get "provider" d = Some (VStr a) /\
               a <> "" /\ startswith a "aws" = false).
Proof.
  assert (Halias : forall d,
             match m_provider_alias (fst (extract_meta d)) with
             | Some a => truthy a && negb (startswith a "aws")
             | None => false
             end = true <->
             exists a, dict_get "provider" d = Some (VStr a) /\
                       a <> "" /\ startswith a "aws" = false).
  { intros d. rewrite extract_meta_provider_alias. unfold truthy.
    destruct (dict_get "provider" d) as [[| | | |s| |]|];
      try (split; [discriminate | intros (a & E & _); discriminate E]).
    split.
    - intros H. apply andb_true_iff in H as [H1 H2]. exists s.
      split; [reflexivity|]. split.
      + intros ->. discriminate H1.
      + now apply negb_true_iff in H2.
    - intros (a & E & Hne & Hs). injection E as ->. rewrite Hs.
      now destruct (String.eqb_spec a ""). }
  pose proof (service_for_type_aws rtype) as Haws.
  unfold make_record.
  destruct (startswith rtype "aws_") eqn:Hp; simpl negb; cbv iota.
  - destruct (service_for_type rtype) as [svc|] eqn:Hs.
    + assert (Hsome : Some svc <> None) by discriminate.
      destruct (is_dict body) eqn:Hd.
      * destruct body as [| | | | | |d]; try discriminate Hd.
        specialize (Halias d).
        destruct (extract_meta d) as [m rest]. simpl fst in Halias.
        destruct (match m_provider_alias m with Some _ => _ | None => _ end).
        -- destruct (proj1 Halias eq_refl) as (a & Ha).
           split; [split; discriminate|].
           split; [split; [discriminate | intros [_ H]; discriminate H]|].
           split; [split; [discriminate | intros [_ H]; discriminate H]|].
           split; [intros _|reflexivity].
           split; [exact Hsome|]. now exists d, a.
        -- split; [split; discriminate|].
           split; [split; [discriminate | intros [_ H]; discriminate H]|].
           split; [split; [discriminate | intros [_ H]; discriminate H]|].
           split; [discriminate|].
           intros [_ (d' & a & E & Ha)]. injection E as <-.
           assert (C : false = true) by (apply Halias; now exists a).
           discriminate C.
      * destruct body as [| | | | | |d]; try discriminate Hd;
          (split; [split; discriminate|];
           split; [split; [discriminate | intros [_ H]; discriminate H]|];
           split; [split; [intros _; now split | reflexivity]|];
           split; [discriminate|];
           intros [_ (d & a & E & _)]; discriminate E).
    + split; [split; discriminate|].
      split; [split; [intros _; now split | reflexivity]|].
      split; [split; [discriminate | intros [H _]; now destruct H]|].
      split; [discriminate | intros [H _]; now destruct H].
  - assert (Hs : service_for_type rtype = None).
    { destruct (service_for_type rtype) as [svc|] eqn:Hs; [|reflexivity].
      specialize (Haws svc eq_refl). discriminate Haws. }
    rewrite Hs.
    split; [split; reflexivity|].
    split; [split; [discriminate | intros [H _]; discriminate H]|].
    split; [split; [discriminate | intros [H _]; now destruct H]|].
    split; [discriminate | intros [H _]; now destruct H].
Qed.

(** ** Accounting of the collector *)

Lemma records_ignored_length (kind : string) (ds : list declaration) :
  List.length (records_of kind ds) + List.length (ignored_of kind ds) = List.length ds.
Proof.
  unfold records_of, ignored_of. induction ds as [|d t IH]; simpl; [reflexivity|].
  rewrite !length_app. destruct (built kind d); simpl; lia.
Qed.

(** X11. The diagnostics flag does not change what is collected: with and
    without it the collector returns the same resources and the same data
    sources, and without it no ignored item at all. *)
Theorem collect_from_doc_flag (doc : dict) :
  fst (collect_from_doc doc false) = fst (collect_from_doc doc true) /\
  snd (collect_from_doc doc false) = [].
Proof. rewrite !collect_from_doc_lists. now split. Qed.

(** X12. With diagnostics the collector accounts for every declaration
    once: the records and the ignored items together are as many as the
    declarations of the two sections. *)
Theorem collect_from_doc_accounts (doc : dict) :
  let '(rs, datas, ign) := collect_from_doc doc true in
  List.length rs + List.length datas + List.length ign
  = List.length (declarations (dict_get "resource" doc))
    + List.length (declarations (dict_get "data" doc)).
Proof.
  rewrite collect_from_doc_lists. rewrite length_app.
  pose proof (records_ignored_length "resource"
                (declarations (dict_get "resource" doc))).
  pose proof (records_ignored_length "data"
                (declarations (dict_get "data" doc))).
  lia.
Qed.

(** X13. Only the resource and data sections of a document count: two
    documents with the same two sections collect the same, whatever else
    they hold, and a document in which both sections are missing or null
    collects nothing. *)
Theorem collect_from_doc_sections (doc1 doc2 : dict) (include_ignored : bool) :
  (dict_get "resource" doc1 = dict_get "resource" doc2 ->
   dict_get "data" doc1 = dict_get "data" doc2 ->
   collect_from_doc doc1 include_ignored = collect_from_doc doc2 include_ignored) /\
  ((dict_get "resource" doc1 = None \/ dict_get "resource" doc1 = Some VNull) ->
   (dict_get "data" doc1 = None \/ dict_get "data" doc1 = Some VNull) ->
   collect_from_doc doc1 include_ignored = ([], [], [])).
Proof.
  rewrite !collect_from_doc_lists. split.
  - now intros -> ->.
  - intros [-> | ->] [-> | ->]; now destruct include_ignored.
Qed.

Lemma collect_from_doc_sections_witness :
  let section := VDict [("aws_vpc", VDict [("main", VDict [])])] in
  let doc1 := [("variable", VList [VStr "x"]); ("resource", section)] in
  let doc2 := [("resource", section); ("provider", VDict [("aws", VDict [])])] in
  collect_from_doc doc1 true = collect_from_doc doc2 true /\
  collect_from_doc [("variable", VNum 1); ("data", VNull)] true = ([], [], []).
Proof.
  intros section doc1 doc2. split.
  - exact (proj1 (collect_from_doc_sections doc1 doc2 true) eq_refl eq_refl).
  - exact (proj2 (collect_from_doc_sections [("variable", VNum 1); ("data", VNull)]
                    [] true) (or_introl eq_refl) (or_intror eq_refl)).
Defined.

(** ** Stability of the sort *)

Section Stable.
Context {A K : Type}.
Variable ltb : K -> K -> bool.
Variable key : A -> K.
Hypothesis ltb_tricho :
  forall a b, ltb a b = false -> ltb b a = false -> a = b.

Lemma insert_sorted_ties (a x : A) (l : list A) :
  filter (fun y => negb (ltb (key a) (key y)) && negb (ltb (key y) (key a)))
    (insert_sorted ltb key x l)
  = filter (fun y => negb (ltb (key a) (key y)) && negb (ltb (key y) (key a)))
      (x :: l).
Proof.
  induction l as [|y t IH]; [reflexivity|].
  cbn [insert_sorted]. destruct (ltb (key y) (key x)) eqn:Hyx; [|reflexivity].
  cbn [filter] in *. rewrite IH.
  destruct (negb (ltb (key a) (key x)) && negb (ltb (key x) (key a))) eqn:Hx;
    [|reflexivity].
  apply andb_true_iff in Hx as [H1 H2].
  apply negb_true_iff in H1, H2. rewrite (ltb_tricho _ _ H1 H2), Hyx.
  now rewrite andb_false_r.
Qed.

(** The elements that tie with [a] come out of the sort in the order in
    which they went in. *)
Lemma sorted_ties (a : A) (l : list A) :
  filter (fun y => negb (ltb (key a) (key y)) && negb (ltb (key y) (key a)))
    (sorted ltb key l)
  = filter (fun y => negb (ltb (key a) (key y)) && negb (ltb (key y) (key a))) l.
Proof.
  induction l as [|x t IH]; [reflexivity|].
  cbn [sorted fold_right]. rewrite insert_sorted_ties. cbn [filter].
  fold (sorted ltb key t). now rewrite IH.
Qed.
End Stable.

(** X14. The sort of the records is stable: records that tie on (type,
    name, address) leave [sort_records] in the order in which they came,
    so two declarations of one address stay in the order of their units. *)
Theorem sort_records_stable (a : record) (l : list record) :
  filter (tied a) (sort_records l) = filter (tied a) l.
Proof.
  unfold tied, sort_records.
  apply (sorted_ties tuple_ltb record_key tuple_ltb_tricho).
Qed.

(** ** Conservation of the records *)

Lemma partition_by_service (rs : list record) :
  Permutation (flat_map (fun k => filter (in_service k) rs) SERVICES_KEYS) rs.
Proof.
  induction rs as [|r t IH]; [reflexivity|].
  unfold SERVICES_KEYS in *. cbn [flat_map filter] in *.
  rewrite !app_nil_r in *. unfold in_service in *.
  destruct (r_service r) eqn:E; rewrite ?E; cbn [service_eqb app];
    [apply perm_skip; exact IH | | | |];
    apply Permutation_sym; rewrite ?app_assoc; apply Permutation_cons_app;
    rewrite <- ?app_assoc; apply Permutation_sym; exact IH.
Qed.

Lemma sorted_partition (rs : list record) :
  Permutation
    (flat_map (fun k => sort_records (filter (in_service k) rs)) SERVICES_KEYS) rs.
Proof.
  eapply Permutation_trans; [|apply partition_by_service].
  unfold SERVICES_KEYS. cbn [flat_map].
  repeat (apply Permutation_app; [apply sort_records_perm|]). reflexivity.
Qed.

(** X15. The organiser loses and invents nothing: the resources of all the
    buckets of the envelope are, up to order, the resources that were
    accumulated, and so for the data sources. *)
Theorem make_envelope_conserves (include_ignored : bool)
    (rs datas : list record) (ign : list ignored_item) :
  let env := make_envelope include_ignored (rs, datas, ign) in
  Permutation (all_resources env) rs /\ Permutation (all_data_sources env) datas.
Proof.
  intros env. unfold all_resources, all_data_sources, env.
  rewrite make_envelope_services, !flat_map_concat_map, !map_map.
  cbn [snd resources data_sources].
  rewrite <- !flat_map_concat_map. split; apply sorted_partition.
Qed.

(** ** The pipeline from the units to the envelope *)

Lemma make_record_well_formed (kind rtype name : string) (body : value) (r : record) :
  make_record kind rtype name body = Ok r ->
  well_formed_record (if String.eqb kind "data" then "data" else "resource") r.
Proof.
  intros H. pose proof H as H'.
  apply make_record_Ok_inv in H' as (d & -> & Hs & Ht & Hn & Ha & _).
  apply make_record_Ok_fields in H as (_ & _ & _ & _ & Hm & _).
  unfold well_formed_record. rewrite Ht, Hn.
  repeat split; try assumption. exact (service_for_type_aws _ _ Hs).
Qed.

Lemma records_of_well_formed (kind : string) (ds : list declaration) :
  Forall (well_formed_record (if String.eqb kind "data" then "data" else "resource"))
    (records_of kind ds).
Proof.
  unfold records_of. apply Forall_forall. intros r Hr.
  apply in_flat_map in Hr as (d & _ & Hr). unfold built in Hr.
  destruct (make_record kind (fst (fst d)) (snd (fst d)) (snd d)) as [r'|] eqn:E;
    [|destruct Hr].
  destruct Hr as [<-|[]]. exact (make_record_well_formed _ _ _ _ _ E).
Qed.

(** What one unit adds: the lists of the collector for a document, a file
    diagnostic (when requested) for a text that does not parse. *)
Lemma unit_output_eq (include_ignored : bool) (path : string) (parsed : parse_result) :
  unit_output include_ignored path parsed
  = match parsed with
    | Parsed doc => collect_from_doc doc include_ignored
    | ParseError message =>
        ([], [], if include_ignored then [IgnoredFile path message] else [])
    end.
Proof.
  unfold unit_output, add_unit. destruct parsed as [doc|msg].
  - now destruct (collect_from_doc doc include_ignored) as [[a b] c].
  - now destruct include_ignored.
Qed.

Lemma unit_output_well_formed include_ignored path parsed :
  Forall (well_formed_record "resource")
    (fst (fst (unit_output include_ignored path parsed))) /\
  Forall (well_formed_record "data")
    (snd (fst (unit_output include_ignored path parsed))).
Proof.
  rewrite unit_output_eq. destruct parsed as [doc|msg]; [|split; constructor].
  rewrite collect_from_doc_lists. simpl. split.
  - apply (records_of_well_formed "resource").
  - apply (records_of_well_formed "data").
Qed.

Lemma fold_add_unit_well_formed {U} (include_ignored : bool) (path : U -> string)
    (parse : U -> parse_result) (units : list U) :
  let st := fold_left (fun st u => add_unit include_ignored (path u) (parse u) st)
              units ([], [], []) in
  Forall (well_formed_record "resource") (fst (fst st)) /\
  Forall (well_formed_record "data") (snd (fst st)).
Proof.
  cbv zeta. rewrite fold_add_unit. cbn [fst snd app].
  split; apply Forall_flat_map, Forall_forall; intros u _;
    apply unit_output_well_formed.
Qed.

Lemma make_envelope_well_sorted include_ignored rs datas ign :
  Forall (well_formed_record "resource") rs ->
  Forall (well_formed_record "data") datas ->
  well_sorted_envelope (make_envelope include_ignored (rs, datas, ign)).
Proof.
  intros Hr Hd name b Hin. rewrite make_envelope_services in Hin.
  apply in_map_iff in Hin as (k & E & _). injection E as <- <-.
  cbn [resources data_sources].
  split; apply Forall_forall; intros r Hin;
    apply (Permutation_in _ (sort_records_perm _)), filter_In in Hin as [Hin Hk];
    unfold in_service in Hk; destruct (service_eqb_spec (r_service r) k);
    try discriminate; subst k; (split; [|reflexivity]).
  - rewrite Forall_forall in Hr. auto.
  - rewrite Forall_forall in Hd. auto.
Qed.

(** X16. Whatever the units hold, every record of the envelope is well
    formed and well placed: a record of a [resources] list has mode
    resource and one of a [data_sources] list mode data, its address joins
    its type and its name with a dot, its type starts with the provider
    prefix, its service is the one the table gives for its type, and it
    sits in the bucket of that service.  This holds for both entry
    points. *)
Theorem transform_well_sorted :
  (forall (parse : string -> parse_result) (request_obj : request),
      well_sorted_envelope (transform_from_prompt parse request_obj)) /\
  (forall (parse : string -> parse_result) (isfile isdir : string -> bool)
          (walk : string -> list (string * list string))
          (join : string -> string -> string)
          (input_path : string) (include_ignored : bool),
      well_sorted_envelope
        (transform_from_path parse isfile isdir walk join input_path include_ignored)).
Proof.
  split.
  - intros parse req. unfold transform_from_prompt.
    destruct (fold_add_unit_well_formed (req_include_ignored req) file_path
                (fun f => parse (file_content f)) (req_files req)) as [Hr Hd].
    unfold file_path, file_content in Hr, Hd.
    destruct (fold_left _ (req_files req) _) as [[rs ds] ig].
    now apply make_envelope_well_sorted.
  - intros parse isfile isdir walk join p incl. unfold transform_from_path.
    destruct (fold_add_unit_well_formed incl (fun p => p) parse
                (gather_tf_files isfile isdir walk join p)) as [Hr Hd].
    destruct (fold_left _ (gather_tf_files isfile isdir walk join p) _)
      as [[rs ds] ig].
    now apply make_envelope_well_sorted.
Qed.

Lemma transform_well_sorted_witness :
  let env := transform_from_prompt (fun _ => Parsed scenario_doc)
               (Request [TfFile None None] true) in
  let web :=
    {| r_address := "aws_instance.web"; r_type := "aws_instance";
       r_name := "web"; r_service := Ec2; r_mode := "resource";
       r_provider_alias := None; r_depends_on := [];
       r_count := VNum 2; r_for_each := VNull;
       r_attributes :=
         [("ami", VDict [("$expr", VStr "data.aws_ami.x.id")])] |} in
  In ("ec2", Bucket [web] []) (services env) /\
  well_formed_record "resource" web.
Proof.
  intros env web.
  assert (Hin : In ("ec2", Bucket [web] []) (services env)) by (left; reflexivity).
  split; [exact Hin|].
  destruct (proj1 transform_well_sorted (fun _ => Parsed scenario_doc)
              (Request [TfFile None None] true) _ _ Hin) as [Hr _].
  inversion Hr as [|? ? [Hw _] _]. exact Hw.
Defined.

(** The accumulation of [transform_from_prompt] as the concatenation of
    what the files add. *)
Lemma transform_from_prompt_eq (parse : string -> parse_result) (files : list tf_file)
    (include_ignored : bool) :
  transform_from_prompt parse (Request files include_ignored)
  = make_envelope include_ignored
      (flat_map (fun f => fst (fst (unit_output include_ignored (file_path f)
                                      (parse (file_content f))))) files,
       flat_map (fun f => snd (fst (unit_output include_ignored (file_path f)
                                      (parse (file_content f))))) files,
       flat_map (fun f => snd (unit_output include_ignored (file_path f)
                                 (parse (file_content f)))) files).
Proof.
  unfold transform_from_prompt. cbn [req_files req_include_ignored].
  now rewrite (fold_add_unit include_ignored file_path
                 (fun f => parse (file_content f))).
Qed.

Lemma unit_output_flag (path : string) (parsed : parse_result) :
  fst (unit_output false path parsed) = fst (unit_output true path parsed).
Proof.
  rewrite !unit_output_eq. destruct parsed as [doc|msg]; [|reflexivity].
  now rewrite !collect_from_doc_lists.
Qed.

Lemma make_envelope_services_flag incl1 incl2 rs datas ig1 ig2 :
  services (make_envelope incl1 (rs, datas, ig1))
  = services (make_envelope incl2 (rs, datas, ig2)).
Proof. now rewrite !make_envelope_services. Qed.

(** X17. Asking for diagnostics changes nothing but the diagnostics: with
    and without the flag a request gives the same services, and the
    envelope has an [ignored] list exactly when the flag is set. *)
Theorem transform_from_prompt_flag (parse : string -> parse_result)
    (files : list tf_file) :
  services (transform_from_prompt parse (Request files false))
  = services (transform_from_prompt parse (Request files true)) /\
  ignored (transform_from_prompt parse (Request files false)) = None /\
  ignored (transform_from_prompt parse (Request files true)) <> None.
Proof.
  rewrite !transform_from_prompt_eq. split; [|split].
  - rewrite !make_envelope_services. apply map_ext. intros k.
    assert (E : forall g : list record * list record -> list record,
               flat_map (fun f => g (fst (unit_output false (file_path f)
                                            (parse (file_content f))))) files
               = flat_map (fun f => g (fst (unit_output true (file_path f)
                                              (parse (file_content f))))) files).
    { intros g. apply flat_map_ext. intros f. now rewrite unit_output_flag. }
    now rewrite (E fst), (E snd).
  - reflexivity.
  - discriminate.
Qed.

Lemma flat_map_filter_nil {A B} (g : A -> list B) (p : A -> bool) (l : list A) :
  (forall x, p x = false -> g x = []) ->
  flat_map g (filter p l) = flat_map g l.
Proof.
  intros H. induction l as [|x t IH]; simpl; [reflexivity|].
  destruct (p x) eqn:E; simpl; [now rewrite IH|]. now rewrite (H x E), IH.
Qed.

Lemma ignored_of_no_file_item (kind : string) (ds : list declaration) :
  filter is_file_item (ignored_of kind ds) = [].
Proof.
  unfold ignored_of. induction ds as [|d t IH]; simpl; [reflexivity|].
  rewrite filter_app, IH, app_nil_r. now destruct (built kind d).
Qed.

Lemma unit_output_file_items (path : string) (parsed : parse_result) :
  List.length (filter is_file_item (snd (unit_output true path parsed)))
  = match parsed with Parsed _ => 0 | ParseError _ => 1 end.
Proof.
  rewrite unit_output_eq. destruct parsed as [doc|msg]; [|reflexivity].
  rewrite collect_from_doc_lists. cbn [snd].
  now rewrite filter_app, !ignored_of_no_file_item.
Qed.

(** X18. A file that the parser rejects stops nothing and adds no record:
    the services of the envelope are those of the request without the
    rejected files, and with diagnostics the ignored list holds one file
    item for each rejected file. *)
Theorem transform_from_prompt_parse_errors (parse : string -> parse_result)
    (files : list tf_file) (include_ignored : bool) :
  services (transform_from_prompt parse (Request files include_ignored))
  = services (transform_from_prompt parse
                (Request (filter (parses parse) files) include_ignored)) /\
  exists ig,
    ignored (transform_from_prompt parse (Request files true)) = Some ig /\
    List.length (filter is_file_item ig)
    = List.length (filter (fun f => negb (parses parse f)) files).
Proof.
  rewrite !transform_from_prompt_eq. split.
  - rewrite !make_envelope_services. apply map_ext. intros k.
    assert (Hnil : forall f, parses parse f = false ->
               fst (unit_output include_ignored (file_path f)
                      (parse (file_content f))) = ([], [])).
    { intros f Hf. rewrite unit_output_eq. unfold parses in Hf.
      now destruct (parse (file_content f)). }
    rewrite !(flat_map_filter_nil _ (parses parse));
      [reflexivity | |]; intros f Hf; now rewrite (Hnil f Hf).
  - eexists. split; [reflexivity|].
    rewrite (Permutation_length
               (Permutation_filter is_file_item _ _
                  (sorted_perm tuple_ltb ignored_key _))).
    induction files as [|f t IH]; [reflexivity|].
    cbn [flat_map filter]. rewrite filter_app, length_app, IH.
    rewrite unit_output_file_items. unfold parses.
    now destruct (parse (file_content f)).
Qed.

(** ** The files of a path *)

Lemma fold_left_ext_in {A S} (f g : S -> A -> S) (l : list A) (st : S) :
  (forall s a, In a l -> f s a = g s a) -> fold_left f l st = fold_left g l st.
Proof.
  revert st. induction l as [|a t IH]; intros st H; simpl; [reflexivity|].
  rewrite (H st a (or_introl eq_refl)). apply IH. intros s b Hb. apply H. now right.
Qed.

Lemma gather_tf_files_In isfile isdir walk join input_path q :
  In q (gather_tf_files isfile isdir walk join input_path) <->
  (if isfile input_path && endswith input_path ".tf" then q = input_path
   else if isdir input_path then
     exists root fn, In (root, fn) (walked_files (walk input_path)) /\
                     endswith fn ".tf" = true /\ q = join root fn
   else False).
Proof.
  unfold gather_tf_files.
  assert (Hs : forall l, In q (sorted String.ltb (fun p => p) l) <-> In q l).
  { intros l. split; apply Permutation_in;
      [|apply Permutation_sym]; apply sorted_perm. }
  rewrite Hs.
  destruct (isfile input_path && endswith input_path ".tf").
  - simpl. intuition.
  - destruct (isdir input_path); [|simpl; tauto].
    rewrite walked_paths, in_map_iff. split.
    + intros ([root fn] & <- & H). apply filter_In in H as [H1 H2].
      now exists root, fn.
    + intros (root & fn & H1 & H2 & ->). exists (root, fn). split; [reflexivity|].
      apply filter_In. now split.
Qed.

(** X19. The files of a path are gathered in ascending order of their
    paths, and only files whose name ends in [.tf] are gathered: a path that
    is a file with this ending gives that file alone; a directory gives the
    joined paths of the files with this ending that the walk lists, and no
    other; anything else gives no file. *)
Theorem gather_tf_files_spec
    (isfile isdir : string -> bool) (walk : string -> list (string * list string))
    (join : string -> string -> string) (input_path : string) :
  let paths := gather_tf_files isfile isdir walk join input_path in
  StronglySorted (fun a b => String.ltb b a = false) paths /\
  (isfile input_path && endswith input_path ".tf" = true -> paths = [input_path]) /\
  (isfile input_path && endswith input_path ".tf" = false ->
   isdir input_path = true ->
   forall q, In q paths <->
             exists root fn, In (root, fn) (walked_files (walk input_path)) /\
                             endswith fn ".tf" = true /\ q = join root fn) /\
  (isfile input_path && endswith input_path ".tf" = false ->
   isdir input_path = false -> paths = []).
Proof.
  intros paths. split; [|split; [|split]].
  - apply (sorted_sorted String.ltb (fun p : string => p));
      [apply string_ltb_irrefl | apply string_ltb_trans | apply string_ltb_tricho].
  - intros H. unfold paths, gather_tf_files. now rewrite H.
  - intros H1 H2 q. unfold paths. rewrite gather_tf_files_In. now rewrite H1, H2.
  - intros H1 H2. unfold paths, gather_tf_files. now rewrite H1, H2.
Qed.

Lemma gather_tf_files_spec_witness :
  let walk := fun _ : string => [("d", ["b.tf"; "notes.txt"]); ("d/m", ["a.tf"])] in
  let paths := gather_tf_files (fun _ => false) (fun _ => true) walk slash_join "d" in
  paths = ["d/b.tf"; "d/m/a.tf"] /\
  (In "d/m/a.tf" paths <->
   exists root fn, In (root, fn) (walked_files (walk "d")) /\
                   endswith fn ".tf" = true /\ "d/m/a.tf" = slash_join root fn) /\
  gather_tf_files (fun _ => true) (fun _ => true) walk slash_join "main.tf"
  = ["main.tf"] /\
  gather_tf_files (fun _ => true) (fun _ => false) walk slash_join "main.txt" = [].
Proof.
  intros walk paths. split; [reflexivity|]. split; [|split].
  - exact (proj1 (proj2 (proj2 (gather_tf_files_spec (fun _ => false)
             (fun _ => true) walk slash_join "d"))) eq_refl eq_refl "d/m/a.tf").
  - exact (proj1 (proj2 (gather_tf_files_spec (fun _ => true)
             (fun _ => true) walk slash_join "main.tf")) eq_refl).
  - exact (proj2 (proj2 (proj2 (gather_tf_files_spec (fun _ => true)
             (fun _ => false) walk slash_join "main.txt"))) eq_refl eq_refl).
Defined.

Lemma endswith_nonempty (s : string) : endswith s ".tf" = true -> s <> "".
Proof. intros H ->. discriminate H. Qed.

(** X20. The two entry points run the same pipeline: transforming a path
    is transforming the request that holds the gathered files, in their
    order, each under its path and with the text read from it, when the
    file parser is the string parser on the text of the file and joining a
    directory and a file name never gives the empty path. *)
Theorem transform_from_path_as_prompt
    (parse_string parse_file : string -> parse_result) (read : string -> string)
    (isfile isdir : string -> bool) (walk : string -> list (string * list string))
    (join : string -> string -> string)
    (input_path : string) (include_ignored : bool) :
  (forall p, parse_file p = parse_string (read p)) ->
  (forall root fn, fn <> "" -> join root fn <> "") ->
  transform_from_path parse_file isfile isdir walk join input_path include_ignored
  = transform_from_prompt parse_string
      (Request (files_of_paths read
                  (gather_tf_files isfile isdir walk join input_path))
         include_ignored).
Proof.
  intros Hparse Hjoin. unfold transform_from_path, transform_from_prompt.
  cbn [req_files req_include_ignored]. f_equal.
  unfold files_of_paths. rewrite fold_left_map.
  apply fold_left_ext_in. intros st p Hp. cbn [f_path f_content].
  rewrite Hparse. f_equal.
  assert (Hne : p <> "").
  { apply gather_tf_files_In in Hp.
    destruct (isfile input_path && endswith input_path ".tf") eqn:E.
    - subst p. apply andb_true_iff in E as [_ E]. now apply endswith_nonempty.
    - destruct (isdir input_path); [|destruct Hp].
      destruct Hp as (root & fn & _ & Hfn & ->).
      apply Hjoin. now apply endswith_nonempty. }
  unfold truthy. now destruct (String.eqb_spec p "").
Qed.

Lemma transform_from_path_as_prompt_witness :
  let walk := fun _ : string => [("d", ["b.tf"; "notes.txt"; "a.tf"])] in
  let read := fun p : string => p in
  (forall p, disk_sources p = disk_sources (read p)) /\
  (forall root fn, fn <> "" -> slash_join root fn <> "") /\
  transform_from_path disk_sources (fun _ => false) (fun _ => true) walk
    slash_join "d" true
  = transform_from_prompt disk_sources
      (Request [TfFile (Some "d/a.tf") (Some "d/a.tf");
                TfFile (Some "d/b.tf") (Some "d/b.tf")] true).
Proof.
  intros walk read.
  assert (H1 : forall p, disk_sources p = disk_sources (read p)) by reflexivity.
  assert (H2 : forall root fn, fn <> "" -> slash_join root fn <> "").
  { intros root fn _. unfold slash_join. destruct root; discriminate. }
  split; [exact H1|]. split; [exact H2|].
  exact (transform_from_path_as_prompt disk_sources disk_sources read
           (fun _ => false) (fun _ => true) walk slash_join "d" true H1 H2).
Defined.

(** ** Tagged expressions *)

Lemma rstrip_cons (c : ascii) (t : string) :
  rstrip (String c t)
  = match rstrip t with
    | EmptyString => if is_space c then EmptyString else String c EmptyString
    | r => String c r
    end.
Proof. reflexivity. Qed.

Lemma rstrip_idem (s : string) : rstrip (rstrip s) = rstrip s.
Proof.
  induction s as [|c t IH]; [reflexivity|].
  rewrite rstrip_cons. destruct (rstrip t) as [|a r] eqn:E.
  - destruct (is_space c) eqn:Hc; [reflexivity|].
    rewrite rstrip_cons. cbn [rstrip]. now rewrite Hc.
  - rewrite rstrip_cons. now rewrite IH.
Qed.

Lemma strip_idem (s : string) : strip (strip s) = strip s.
Proof.
  unfold strip.
  assert (H : lstrip (rstrip (lstrip s)) = rstrip (lstrip s)).
  { destruct (lstrip s) as [|c t] eqn:E; [reflexivity|].
    pose proof (lstrip_head _ _ _ E) as Hc.
    rewrite rstrip_cons. destruct (rstrip t); rewrite ?Hc; cbn [lstrip];
      now rewrite Hc. }
  rewrite H. apply rstrip_idem.
Qed.

(** X21. The text of a tagged expression is trimmed and has no closing
    brace: when the normaliser turns a string into a tag, the tagged text
    has no blank at either end, and it is not itself a string that the
    normaliser would tag. *)
Theorem normalize_value_tag_trimmed (s t : string) :
  normalize_value (VStr s) = VDict [("$expr", VStr t)] ->
  strip t = t /\ contains_char "}" t = false /\
  normalize_value (VStr t) = VStr t.
Proof.
  simpl. destruct (EXPR_RE_match s) as [inner|] eqn:E; [|discriminate].
  intros H. injection H as <-.
  pose proof (EXPR_RE_match_no_rbrace _ _ E) as Hb.
  split; [apply strip_idem|]. split; [exact Hb|].
  now rewrite (EXPR_RE_match_needs_rbrace _ Hb).
Qed.

Lemma normalize_value_tag_trimmed_witness :
  normalize_value (VStr " ${  lookup(var.m, k)  } ")
  = VDict [("$expr", VStr "lookup(var.m, k)")] /\
  strip "lookup(var.m, k)" = "lookup(var.m, k)".
Proof.
  assert (H : normalize_value (VStr " ${  lookup(var.m, k)  } ")
              = VDict [("$expr", VStr "lookup(var.m, k)")]) by reflexivity.
  split; [exact H|].
  exact (proj1 (normalize_value_tag_trimmed _ _ H)).
Defined.

(** ** Dependencies *)

(** X22. Dependencies given as strings are kept as they are: when the body
    binds [depends_on] to a sequence of strings, the record lists these
    strings in the same order, with repetitions; when it binds it to one
    string, the record lists that string alone. *)
Theorem make_record_depends_on
    (kind rtype name : string) (d : dict) (rec : record) :
  make_record kind rtype name (VDict d) = Ok rec ->
  (forall l, dict_get "depends_on" d = Some (VList (map VStr l)) ->
             r_depends_on rec = l) /\
  (forall s, dict_get "depends_on" d = Some (VStr s) -> r_depends_on rec = [s]) /\
  (dict_get "depends_on" d = None -> r_depends_on rec = []).
Proof.
  intros H.
  apply make_record_Ok_fields in H as (_ & _ & _ & _ & _ & _ & Hd & _).
  cbv zeta in Hd. rewrite extract_meta_lookups in Hd. cbn [m_depends] in Hd.
  rewrite Hd. repeat split.
  - intros l ->. rewrite map_map. cbn [py_str]. apply map_id.
  - now intros s ->.
  - now intros ->.
Qed.

Lemma make_record_depends_on_witness :
  let d := [("depends_on", VList (map VStr ["aws_vpc.b"; "aws_vpc.a"; "aws_vpc.b"]))] in
  let rec :=
    {| r_address := "aws_subnet.s"; r_type := "aws_subnet"; r_name := "s";
       r_service := Vpc; r_mode := "resource"; r_provider_alias := None;
       r_depends_on := ["aws_vpc.b"; "aws_vpc.a"; "aws_vpc.b"];
       r_count := VNull; r_for_each := VNull; r_attributes := [] |} in
  make_record "resource" "aws_subnet" "s" (VDict d) = Ok rec /\
  r_depends_on rec = ["aws_vpc.b"; "aws_vpc.a"; "aws_vpc.b"].
Proof.
  intros d rec.
  assert (H : make_record "resource" "aws_subnet" "s" (VDict d) = Ok rec)
    by reflexivity.
  split; [exact H|].
  exact (proj1 (make_record_depends_on _ _ _ d rec H) _ eq_refl).
Defined.

(** ** The order of the diagnostics *)

(** X23. With diagnostics the ignored list of a request is sorted by
    (kind, type, name, path, reason) and holds what the files added, no
    more and no less; as the kinds compare by code point, no item of a
    resource comes before a file item, and no file item before an item of a
    data source. *)
Theorem transform_from_prompt_ignored_sorted (parse : string -> parse_result)
    (files : list tf_file) :
  exists ig,
    ignored (transform_from_prompt parse (Request files true)) = Some ig /\
    StronglySorted (key_le tuple_ltb ignored_key) ig /\
    Permutation ig
      (flat_map (fun f => snd (unit_output true (file_path f)
                                 (parse (file_content f)))) files) /\
    (forall l1 x l2 y l3, ig = l1 ++ x :: l2 ++ y :: l3 ->
       (forall t n e p m, x = IgnoredDecl "resource" t n e -> y <> IgnoredFile p m) /\
       (forall t n e p m, x = IgnoredFile p m -> y <> IgnoredDecl "data" t n e)).
Proof.
  rewrite transform_from_prompt_eq.
  exists (sort_ignored
            (flat_map (fun f => snd (unit_output true (file_path f)
                                       (parse (file_content f)))) files)).
  split; [reflexivity|].
  assert (Hs : forall l, StronglySorted (key_le tuple_ltb ignored_key) (sort_ignored l)).
  { intros l. apply sorted_sorted;
      [apply tuple_ltb_irrefl | apply tuple_ltb_trans | apply tuple_ltb_tricho]. }
  split; [apply Hs|]. split; [apply sorted_perm|].
  intros l1 x l2 y l3 E. specialize (Hs (flat_map (fun f => snd (unit_output true
    (file_path f) (parse (file_content f)))) files)).
  rewrite E in Hs.
  apply (sorted_lt_before tuple_ltb ignored_key) in Hs.
  split; intros; subst; intros ->; discriminate Hs.
Qed.
